(** * tools/autograd/gen_autograd.py: declaration enrichment and
      deprecated-signature resolution

    A shallow embedding of the declaration pipeline of [gen_autograd.py]:
    [format_return_type], [get_simple_type], [load_aten_declarations] and
    [load_deprecated_signatures] (with its local functions
    [group_declarations_by_signature] and [get_signature]).

    Python [str] values are Rocq strings (sequences of bytes; every pattern
    the code searches for is ASCII, and UTF-8 is self-synchronising, so
    byte-wise search agrees with code-point search).  Python dicts used as
    records become Rocq records; a key that the code adds later is an
    [option] field, [None] meaning "key absent".  Dicts used as maps
    ([types], [call_arg_to_idx], the [defaultdict] of buckets) are [gmap]s.
    Exceptions are values of type [exn] carried by [Result]. *)

From Stdlib Require Import Ascii.
From stdpp Require Import base option list strings gmap.

Set Default Proof Using "Type".

(** ** Python exceptions *)

Inductive exn : Type :=
  | KeyError (key : string)     (* d[key] on a dict without [key] *)
  | IndexError                  (* l[i] with i out of range *)
  | ValueError                  (* wrong number of values to unpack *)
  | AttributeError.             (* method call on None *)

Inductive Result (A : Type) : Type :=
  | Ok (a : A)
  | Raise (e : exn).
Arguments Ok {A} a.
Arguments Raise {A} e.

#[global] Instance exn_eq_dec : EqDecision exn.
Proof. solve_decision. Defined.
#[global] Instance Result_eq_dec `{EqDecision A} : EqDecision (Result A).
Proof. solve_decision. Defined.

#[global] Instance Result_bind : MBind Result := λ A B k m,
  match m with
  | Ok a => k a
  | Raise e => Raise e
  end.
#[global] Instance Result_ret : MRet Result := λ A a, Ok a.

(** ** The Python string methods the generator uses *)

Module Py.

(** [strip_prefix p s] is [Some r] when [s == p + r], i.e.
    [s.startswith(p)]. *)
Fixpoint strip_prefix (p s : string) : option string :=
  match p with
  | "" => Some s
  | String a p' =>
      match s with
      | "" => None
      | String b s' => if decide (a = b) then strip_prefix p' s' else None
      end
  end.

Definition startswith (s p : string) : bool :=
  match strip_prefix p s with Some _ => true | None => false end.

(** [old in s] *)
Fixpoint occurs (old s : string) : bool :=
  startswith s old ||
  match s with
  | "" => false
  | String _ s' => occurs old s'
  end.

(** [s.replace(old, new)] for a non-empty [old]: scan left to right,
    replace each occurrence and resume after it.  [skip] counts the
    characters of the current occurrence that are still to be dropped. *)
Fixpoint replace_go (old new : string) (skip : nat) (s : string) : string :=
  match s with
  | "" => ""
  | String c s' =>
      match skip with
      | S k => replace_go old new k s'
      | O =>
          if startswith s old
          then new +:+ replace_go old new (String.length old - 1) s'
          else String c (replace_go old new 0 s')
      end
  end.

Definition replace (old new s : string) : string := replace_go old new 0 s.

(** [s.split(sep)] for a non-empty [sep]; the result is never empty and
    its head is the piece being built. *)
Fixpoint split_go (sep : string) (skip : nat) (s : string) : list string :=
  match s with
  | "" => [""]
  | String c s' =>
      match skip with
      | S k => split_go sep k s'
      | O =>
          if startswith s sep
          then "" :: split_go sep (String.length sep - 1) s'
          else match split_go sep 0 s' with
               | piece :: pieces => String c piece :: pieces
               | [] => [String c ""]
               end
      end
  end.

Definition split (sep s : string) : list string := split_go sep 0 s.

(** [sep.join(l)] *)
Fixpoint join (sep : string) (l : list string) : string :=
  match l with
  | [] => ""
  | [x] => x
  | x :: l' => x +:+ sep +:+ join sep l'
  end.

(** [s[:-1]] *)
Fixpoint drop_last (s : string) : string :=
  match s with
  | "" => ""
  | String _ "" => ""
  | String c s' => String c (drop_last s')
  end.

(** The characters of [s] before its first line feed: the stretch a
    regular-expression [.] can run over. *)
Fixpoint first_line (s : string) : string :=
  match s with
  | "" => ""
  | String c s' => if decide (c = "010"%char) then "" else String c (first_line s')
  end.

(** The part of [s] before its last [>], if there is one. *)
Fixpoint before_last_gt (s : string) : option string :=
  match s with
  | "" => None
  | String c s' =>
      match before_last_gt s' with
      | Some g => Some (String c g)
      | None => if decide (c = ">"%char) then Some "" else None
      end
  end.

(** [re.match(r'c10::optional<(.+)>', s)], returning [group(1)]: the
    match is anchored at the start only, [.+] is greedy and needs at least
    one character, none of them a line feed. *)
Definition match_optional (s : string) : option string :=
  match strip_prefix "c10::optional<" s with
  | None => None
  | Some rest =>
      match before_last_gt (first_line rest) with
      | Some (String c g) => Some (String c g)
      | _ => None
      end
  end.

End Py.

(** ** Data model

    One record per kind of dict.  The fields of the first group are the keys
    the schema loader provides; the others are keys the generator adds, so
    they are absent ([None]) until it has done so. *)

(** An entry of [declaration['arguments']] or
    [declaration['schema_order_arguments']]. *)
Record Argument : Type := mkArgument {
  arg_name : string;
  arg_type : string;
  arg_dynamic_type : string;
  arg_output : option bool;
  arg_default : option string;
  (* added by [load_aten_declarations] *)
  arg_simple_type : option string;
  (* only on the arguments built by [load_deprecated_signatures] *)
  arg_kwarg_only : option bool;
}.

(** An entry of [declaration['returns']]. *)
Record Return : Type := mkReturn {
  ret_type : string;
  ret_dynamic_type : string;
  ret_simple_type : option string;
}.

Record Declaration : Type := mkDeclaration {
  decl_name : string;
  decl_overload_name : option string;
  decl_inplace : bool;
  decl_arguments : list Argument;
  decl_schema_order_arguments : list Argument;
  decl_returns : list Return;
  decl_schema_string : string;
  decl_deprecated : option bool;
  (* added by [load_aten_declarations] *)
  decl_formals : option (list string);
  decl_schema_order_formals : option (list string);
  decl_args : option (list string);
  decl_schema_order_args : option (list string);
  decl_api_name : option string;
  decl_type_wrapper_name : option string;
  decl_operator_name_with_overload : option string;
  decl_unqual_operator_name_with_overload : option string;
  decl_return_type : option string;
  decl_base_name : option string;
  (* added by [load_deprecated_signatures] *)
  decl_call_args : option (list string);
}.

(** An entry of deprecated.yaml: [deprecated['name']] and
    [deprecated['aten']]. *)
Record DeprecatedDef : Type := mkDeprecatedDef {
  dep_name : string;
  dep_aten : string;
}.

(** [get_simple_type] is applied to arguments and to returns alike: all it
    asks of its argument is a ['type'] key. *)
Class HasType (A : Type) : Type := getitem_type : A → string.
#[global] Instance Argument_HasType : HasType Argument := arg_type.
#[global] Instance Return_HasType : HasType Return := ret_type.

(** The dict [{'type': t}], to speak of the simple type of a type string. *)
Record TypeDict : Type := mkTypeDict { td_type : string }.
#[global] Instance TypeDict_HasType : HasType TypeDict := td_type.

(** [d[key]] on a dict in which [key] may be absent. *)
Definition getitem {A} (key : string) (field : option A) : Result A :=
  match field with
  | Some v => Ok v
  | None => Raise (KeyError key)
  end.

(** [l[i]] for [i >= 0]. *)
Definition getindex {A} (l : list A) (i : nat) : Result A :=
  match l !! i with
  | Some v => Ok v
  | None => Raise IndexError
  end.

(** Truth value of [d.get(key)]. *)
Definition truthy_bool (field : option bool) : bool := default false field.
Definition truthy_str (field : option string) : bool :=
  match field with
  | Some (String _ _) => true
  | _ => false
  end.

(** ** [format_return_type] and [get_simple_type] *)

Definition format_return_type (returns : list Return) : string :=
  match returns with
  | [] => "void"
  | [r] => ret_type r
  | _ => "std::tuple<" +:+ Py.join "," (map ret_type returns) +:+ ">"
  end.

Definition get_simple_type `{HasType A} (arg : A) : string :=
  let simple_type := getitem_type arg in
  let simple_type := Py.replace "const " "" (Py.replace " &" "" simple_type) in
  let simple_type := Py.replace "Generator *" "Generator" simple_type in
  match Py.match_optional simple_type with
  | Some group1 => group1 +:+ "?"
  | None => simple_type
  end.

(** The simple type of a type string. *)
Definition normalize (t : string) : string := get_simple_type (mkTypeDict t).

(** Whether [get_simple_type] finds something to rewrite in a type string:
    one of the three texts it replaces, or a match of the pattern. *)
Definition rewritable (t : string) : bool :=
  Py.occurs " &" t || Py.occurs "const " t || Py.occurs "Generator *" t
  || bool_decide (is_Some (Py.match_optional t)).

(** ** [load_aten_declarations]

    The function enriches the dicts that [yaml.load] returned, by assignment
    to their keys.  To see that, the parsed document is a heap of
    declaration objects, an object's address being its position; the list
    [declarations] and the returned list hold addresses.

    The argument and return dicts are kept inside their declaration: the
    only assignment to them, [arg['simple_type'] = get_simple_type(arg)],
    writes a value that depends on [arg['type']] alone, so sharing between
    them could not be observed. *)

Abbreviation loc := nat.
Abbreviation Heap := (list Declaration).

Definition set_arg_simple_type (arg : Argument) : Argument :=
  {| arg_name := arg_name arg; arg_type := arg_type arg;
     arg_dynamic_type := arg_dynamic_type arg; arg_output := arg_output arg;
     arg_default := arg_default arg;
     arg_simple_type := Some (get_simple_type arg);
     arg_kwarg_only := arg_kwarg_only arg |}.

Definition set_ret_simple_type (ret : Return) : Return :=
  {| ret_type := ret_type ret; ret_dynamic_type := ret_dynamic_type ret;
     ret_simple_type := Some (get_simple_type ret) |}.

Definition formal (arg : Argument) : string :=
  arg_type arg +:+ " " +:+ arg_name arg.

(** The body of the loop for a declaration that is not skipped: the new
    contents of the object, and whether the body ran to its end.  The one
    statement that can raise is [.split('::')[1]]; the keys assigned before
    it stay assigned. *)
Definition enrich (declaration : Declaration) : Declaration * Result unit :=
  let arguments := map set_arg_simple_type (decl_arguments declaration) in
  let schema_order_arguments :=
    map set_arg_simple_type (decl_schema_order_arguments declaration) in
  let returns := map set_ret_simple_type (decl_returns declaration) in
  let name := decl_name declaration in
  let type_wrapper_name :=
    if truthy_str (decl_overload_name declaration)
    then name +:+ "_" +:+ default "" (decl_overload_name declaration)
    else name in
  let operator_name_with_overload :=
    default "" (head (Py.split "(" (decl_schema_string declaration))) in
  let partly (unqual return_type base_name : option string) :=
    {| decl_name := name;
       decl_overload_name := decl_overload_name declaration;
       decl_inplace := decl_inplace declaration;
       decl_arguments := arguments;
       decl_schema_order_arguments := schema_order_arguments;
       decl_returns := returns;
       decl_schema_string := decl_schema_string declaration;
       decl_deprecated := decl_deprecated declaration;
       decl_formals := Some (map formal arguments);
       decl_schema_order_formals := Some (map formal schema_order_arguments);
       decl_args := Some (map arg_name arguments);
       decl_schema_order_args := Some (map arg_name schema_order_arguments);
       decl_api_name := Some name;
       decl_type_wrapper_name := Some type_wrapper_name;
       decl_operator_name_with_overload := Some operator_name_with_overload;
       decl_unqual_operator_name_with_overload := unqual;
       decl_return_type := return_type;
       decl_base_name := base_name;
       decl_call_args := decl_call_args declaration |} in
  match getindex (Py.split "::" operator_name_with_overload) 1 with
  | Raise e =>
      (partly (decl_unqual_operator_name_with_overload declaration)
              (decl_return_type declaration) (decl_base_name declaration),
       Raise e)
  | Ok unqual =>
      (partly (Some unqual) (Some (format_return_type returns)) (Some name),
       Ok ())
  end.

(** [for declaration in declarations: ...], returning the heap as the loop
    leaves it and [selected_declarations] (or the exception).  Every
    address in [declarations] is that of an object, so the first case does
    not arise. *)
Fixpoint enrich_all (declarations : list loc) (h : Heap)
  : Heap * Result (list loc) :=
  match declarations with
  | [] => (h, Ok [])
  | l :: rest =>
      match h !! l with
      | None => (h, Ok [])
      | Some declaration =>
          if truthy_bool (decl_deprecated declaration)
          then enrich_all rest h
          else
            let '(declaration', r) := enrich declaration in
            let h' := <[l := declaration']> h in
            match r with
            | Raise e => (h', Raise e)
            | Ok _ =>
                let '(h'', selected) := enrich_all rest h' in
                (h'', selected_declarations ← selected;
                      Ok (l :: selected_declarations))
            end
      end
  end.

(** [load_aten_declarations], from the point where the document has been
    parsed into the heap [h]. *)
Definition load_aten_declarations (h : Heap) : Heap * Result (list loc) :=
  enrich_all (seq 0 (length h)) h.

(** The objects a list of addresses refers to. *)
Definition objects (h : Heap) (refs : list loc) : list Declaration :=
  omap (λ l, h !! l) refs.

(** ** [load_deprecated_signatures] *)

(** [defaultdict(list)]: reading a missing key stores an empty list under
    it and returns that list. *)
Definition defaultdict_getitem {V} (d : gmap string (list V)) (key : string)
  : list V * gmap string (list V) :=
  match d !! key with
  | Some bucket => (bucket, d)
  | None => ([], <[key := []]> d)
  end.

(** The base name [group_declarations_by_signature] files a declaration
    under. *)
Definition signature_base_name (declaration : Declaration) : string :=
  let name := decl_name declaration in
  if decl_inplace declaration then Py.drop_last name else name.

(** The key [group_declarations_by_signature] computes for one
    declaration. *)
Definition declaration_signature (declaration : Declaration) : Result string :=
  let base_name := signature_base_name declaration in
  simple_types ←
    mapM (λ arg, getitem "simple_type" (arg_simple_type arg))
         (decl_arguments declaration);
  Ok (base_name +:+ "(" +:+ Py.join ", " simple_types +:+ ")").

Fixpoint group_loop (aten_decls : list Declaration)
    (d : gmap string (list Declaration))
  : Result (gmap string (list Declaration)) :=
  match aten_decls with
  | [] => Ok d
  | declaration :: rest =>
      signature ← declaration_signature declaration;
      let '(bucket, d) := defaultdict_getitem d signature in
      group_loop rest (<[signature := bucket ++ [declaration]]> d)
  end.

Definition group_declarations_by_signature (aten_decls : list Declaration)
  : Result (gmap string (list Declaration)) :=
  group_loop aten_decls ∅.

(** [param.split(' ')] where exactly two pieces are expected, as in
    [_, param_name = param.split(' ')] and in [dict] applied to the list of
    the reversed pieces. *)
Definition split_param (param : string) : Result (string * string) :=
  match Py.split " " param with
  | [param_type; param_name] => Ok (param_type, param_name)
  | _ => Raise ValueError
  end.

(** [dict(pairs)]: a later pair overrides an earlier one with the same
    key. *)
Definition dict {V} (pairs : list (string * V)) : gmap string V :=
  foldl (λ m kv, <[kv.1 := kv.2]> m) ∅ pairs.

(** The local [rearranged_types] of [get_signature]. *)
Definition rearranged_types (params call_args : list string)
  : Result (list string) :=
  pairs ← mapM (λ param, '(param_type, param_name) ← split_param param;
                          Ok (param_name, param_type))
               (filter (λ param, param ≠ "*") params);
  let types := dict pairs in
  Ok (map (λ arg, default "Scalar" (types !! arg)) call_args).

Definition get_signature (name : string) (params call_args : list string)
  : Result string :=
  rearranged_types ← rearranged_types params call_args;
  Ok (name +:+ "(" +:+ Py.join ", " rearranged_types +:+ ")").

(** [{arg: i for i, arg in enumerate(call_args)}] *)
Definition call_arg_to_idx (call_args : list string) : gmap string nat :=
  dict (imap (λ i arg, (arg, i)) call_args).

(** [for param in params: ...], building [arguments]. *)
Fixpoint deprecated_arguments (params : list string) (kwarg_only : bool)
    (call_arg_to_idx : gmap string nat) (original_args : list Argument)
  : Result (list Argument) :=
  match params with
  | [] => Ok []
  | param :: rest =>
      if decide (param = "*")
      then deprecated_arguments rest true call_arg_to_idx original_args
      else
        '(_, param_name) ← split_param param;
        i ← getitem param_name (call_arg_to_idx !! param_name);
        original ← getindex original_args i;
        simple_type ← getitem "simple_type" (arg_simple_type original);
        let argument :=
          {| arg_name := param_name;
             arg_kwarg_only := Some kwarg_only;
             arg_type := arg_type original;
             arg_simple_type := Some simple_type;
             arg_dynamic_type := arg_dynamic_type original;
             arg_output := Some (default false (arg_output original));
             arg_default := None |} in
        arguments ← deprecated_arguments rest kwarg_only call_arg_to_idx
                                         original_args;
        Ok (argument :: arguments)
  end.

(** The body of [for declaration in declarations_by_signature[signature]]:
    the deep copy with its three keys reassigned. *)
Definition deprecated_declaration (params call_args : list string)
    (declaration : Declaration) : Result Declaration :=
  arguments ← deprecated_arguments params false (call_arg_to_idx call_args)
                                   (decl_arguments declaration);
  Ok {| decl_name := decl_name declaration;
        decl_overload_name := decl_overload_name declaration;
        decl_inplace := decl_inplace declaration;
        decl_arguments := arguments;
        decl_schema_order_arguments := decl_schema_order_arguments declaration;
        decl_returns := decl_returns declaration;
        decl_schema_string := decl_schema_string declaration;
        decl_deprecated := Some true;
        decl_formals := decl_formals declaration;
        decl_schema_order_formals := decl_schema_order_formals declaration;
        decl_args := decl_args declaration;
        decl_schema_order_args := decl_schema_order_args declaration;
        decl_api_name := decl_api_name declaration;
        decl_type_wrapper_name := decl_type_wrapper_name declaration;
        decl_operator_name_with_overload :=
          decl_operator_name_with_overload declaration;
        decl_unqual_operator_name_with_overload :=
          decl_unqual_operator_name_with_overload declaration;
        decl_return_type := decl_return_type declaration;
        decl_base_name := decl_base_name declaration;
        decl_call_args := Some call_args |}.

Section resolver.

(** [split_name_params] is imported from [tools/autograd/utils.py]; the
    resolver is written against any such function. *)
Variable split_name_params : string → Result (string * list string).

(** The body of [for deprecated in deprecated_defs]: the declarations
    this entry adds, and the bucket dict as the lookup leaves it. *)
Definition resolve_deprecated
    (declarations_by_signature : gmap string (list Declaration))
    (deprecated : DeprecatedDef)
  : Result (list Declaration * gmap string (list Declaration)) :=
  '(aten_name, call_args) ← split_name_params (dep_aten deprecated);
  '(name, params) ← split_name_params (dep_name deprecated);
  signature ← get_signature aten_name params call_args;
  let '(bucket, d) := defaultdict_getitem declarations_by_signature signature in
  resolved ← mapM (deprecated_declaration params call_args) bucket;
  Ok (resolved, d).

Fixpoint resolve_loop (deprecated_defs : list DeprecatedDef)
    (declarations_by_signature : gmap string (list Declaration))
  : Result (list Declaration) :=
  match deprecated_defs with
  | [] => Ok []
  | deprecated :: rest =>
      '(resolved, d) ← resolve_deprecated declarations_by_signature deprecated;
      declarations ← resolve_loop rest d;
      Ok (resolved ++ declarations)
  end.

(** [load_deprecated_signatures], from the point where deprecated.yaml
    has been parsed into [deprecated_defs]. *)
Definition load_deprecated_signatures (aten_decls : list Declaration)
    (deprecated_defs : list DeprecatedDef) : Result (list Declaration) :=
  declarations_by_signature ← group_declarations_by_signature aten_decls;
  resolve_loop deprecated_defs declarations_by_signature.

End resolver.

(** Modelled from the spec: [split_name_params] itself, which lives in
    [tools/autograd/utils.py].  The spec gives the two texts of an entry the
    forms [<legacy-name>(<params>)] and [<canonical-name>(<call-args>)] and
    has them parsed into the name and the ordered list of parameters or
    call arguments; the items are separated by a comma and a space. *)
Definition split_name_params (prototype : string)
  : Result (string * list string) :=
  match Py.split "(" prototype with
  | [name; rest] =>
      match Py.split ")" rest with
      | [items; ""] => Ok (name, Py.split ", " items)
      | _ => Raise AttributeError
      end
  | _ => Raise AttributeError
  end.

(** What the caller of [load_aten_declarations] holds afterwards: the
    returned list, read through the heap the run has left. *)
Definition loaded_declarations (h : Heap) : Result (list Declaration) :=
  let '(h', r) := load_aten_declarations h in
  selected_declarations ← r; Ok (objects h' selected_declarations).

(** ** Vocabulary for the statements *)

(** The addresses [load_aten_declarations] does not skip. *)
Definition not_deprecated (h : Heap) (l : loc) : bool :=
  match h !! l with
  | Some declaration => negb (truthy_bool (decl_deprecated declaration))
  | None => false
  end.

(** Two dicts agree on the keys the schema loader wrote. *)
Definition same_authored_arg (a a' : Argument) : Prop :=
  arg_name a' = arg_name a ∧ arg_type a' = arg_type a ∧
  arg_dynamic_type a' = arg_dynamic_type a ∧ arg_output a' = arg_output a ∧
  arg_default a' = arg_default a.

Definition same_authored_ret (r r' : Return) : Prop :=
  ret_type r' = ret_type r ∧ ret_dynamic_type r' = ret_dynamic_type r.

Definition same_authored_keys (d d' : Declaration) : Prop :=
  decl_name d' = decl_name d ∧
  decl_overload_name d' = decl_overload_name d ∧
  decl_inplace d' = decl_inplace d ∧
  decl_schema_string d' = decl_schema_string d ∧
  decl_deprecated d' = decl_deprecated d ∧
  Forall2 same_authored_arg (decl_arguments d) (decl_arguments d') ∧
  Forall2 same_authored_arg (decl_schema_order_arguments d)
          (decl_schema_order_arguments d') ∧
  Forall2 same_authored_ret (decl_returns d) (decl_returns d').

(** Two declarations share a bucket of the grouper's dict. *)
Definition same_bucket (d : gmap string (list Declaration))
    (d1 d2 : Declaration) : Prop :=
  ∃ key bucket, d !! key = Some bucket ∧ d1 ∈ bucket ∧ d2 ∈ bucket.

(** The simple types of the arguments, in declaration order ([None] where
    the key is absent). *)
Definition simple_types (declaration : Declaration) : list (option string) :=
  map arg_simple_type (decl_arguments declaration).

(** A signature that can be read back: no parenthesis in the base name,
    and simple types that are neither empty nor hold the separator of the
    join. *)
Definition plain_signature (declaration : Declaration) : Prop :=
  Py.occurs "(" (signature_base_name declaration) = false ∧
  Forall (λ t, ∃ s, t = Some s ∧ s ≠ "" ∧ Py.occurs ", " s = false)
         (simple_types declaration).

(** A type text that keeps the join readable. *)
Definition plain_type (t : string) : Prop :=
  t ≠ "" ∧ Py.occurs ", " t = false.

(** Two bucket dicts that read the same under every key. *)
Definition same_reads (d d' : gmap string (list Declaration)) : Prop :=
  ∀ key, default [] (d !! key) = default [] (d' !! key).

(** The argument dict the resolver builds for a legacy parameter, out of
    the parameter's name and keyword-only flag and of the canonical argument
    it stands for. *)
Definition legacy_argument (param_name : string) (kwarg_only : bool)
    (original : Argument) : Argument :=
  {| arg_name := param_name;
     arg_kwarg_only := Some kwarg_only;
     arg_type := arg_type original;
     arg_simple_type := arg_simple_type original;
     arg_dynamic_type := arg_dynamic_type original;
     arg_output := Some (default false (arg_output original));
     arg_default := None |}.

(** ** Sample documents *)

Definition tensor_arg (name : string) : Argument :=
  mkArgument name "const Tensor &" "Tensor" None None None None.
Definition scalar_arg (name : string) : Argument :=
  mkArgument name "Scalar" "Scalar" None (Some "1") None None.
Definition tensor_ret : Return := mkReturn "Tensor" "Tensor" None.

(** [add.Tensor(Tensor self, Tensor other, *, Scalar alpha=1) -> Tensor] *)
Definition add_Tensor : Declaration :=
  mkDeclaration "add" (Some "Tensor") false
    [tensor_arg "self"; tensor_arg "other"; scalar_arg "alpha"]
    [tensor_arg "self"; tensor_arg "other"; scalar_arg "alpha"]
    [tensor_ret]
    "aten::add.Tensor(Tensor self, Tensor other, *, Scalar alpha=1) -> Tensor"
    None None None None None None None None None None None None.

(** [add_.Tensor], the in-place variant. *)
Definition add__Tensor : Declaration :=
  mkDeclaration "add_" (Some "Tensor") true
    [tensor_arg "self"; tensor_arg "other"; scalar_arg "alpha"]
    [tensor_arg "self"; tensor_arg "other"; scalar_arg "alpha"]
    [tensor_ret]
    "aten::add_.Tensor(Tensor(a!) self, Tensor other, *, Scalar alpha=1) -> Tensor(a!)"
    None None None None None None None None None None None None.

(** [max.dim(Tensor self, int dim, bool keepdim=False) -> (Tensor, Tensor)] *)
Definition max_dim : Declaration :=
  mkDeclaration "max" (Some "dim") false
    [tensor_arg "self"; mkArgument "dim" "int64_t" "int64_t" None None None None;
     mkArgument "keepdim" "bool" "bool" None (Some "false") None None]
    [tensor_arg "self"; mkArgument "dim" "int64_t" "int64_t" None None None None;
     mkArgument "keepdim" "bool" "bool" None (Some "false") None None]
    [tensor_ret; tensor_ret]
    "aten::max.dim(Tensor self, int dim, bool keepdim=False) -> (Tensor values, Tensor indices)"
    None None None None None None None None None None None None.

(** The legacy form [add(Tensor self, Scalar alpha, Tensor other)]. *)
Definition deprecated_add : DeprecatedDef :=
  mkDeprecatedDef "add(Tensor self, Scalar alpha, Tensor other)"
                  "add(self, other, alpha)".

(** Two declarations of [f] whose signature texts coincide: one argument of
    type "A, B", and two arguments of types "A" and "B". *)
Definition f_one_argument : Declaration :=
  mkDeclaration "f" None false
    [mkArgument "x" "A, B" "A, B" None None None None]
    [mkArgument "x" "A, B" "A, B" None None None None]
    [tensor_ret] "aten::f(A, B x) -> Tensor"
    None None None None None None None None None None None None.

Definition f_two_arguments : Declaration :=
  mkDeclaration "f" None false
    [mkArgument "x" "A" "A" None None None None;
     mkArgument "y" "B" "B" None None None None]
    [mkArgument "x" "A" "A" None None None None;
     mkArgument "y" "B" "B" None None None None]
    [tensor_ret] "aten::f(A x, B y) -> Tensor"
    None None None None None None None None None None None None.

(** A legacy form of an operator that is no longer declared. *)
Definition deprecated_sub : DeprecatedDef :=
  mkDeprecatedDef "sub(Tensor self, Scalar alpha, Tensor other)"
                  "sub(self, other, alpha)".

(** A legacy form of [add] whose parameter [out] is not passed on. *)
Definition deprecated_add_out : DeprecatedDef :=
  mkDeprecatedDef "add(Tensor self, Scalar alpha, Tensor other, Tensor out)"
                  "add(self, other, alpha)".

(** A legacy form of [f] whose call has two arguments and whose parameter
    [z] is not passed on. *)
Definition deprecated_f : DeprecatedDef :=
  mkDeprecatedDef "f(A x, B y, C z)" "f(x, y)".

(** ** The rest of the module *)


(** The module-level tables.  [VIEW_FUNCTIONS] is the dict literal;
    the loop [for key in VIEW_FUNCTIONS_WITH_METADATA_CHANGE] then adds its
    keys to it. *)
Definition VIEW_FUNCTIONS_WITH_METADATA_CHANGE : list string :=
  ["view_as_real"; "view_as_complex"].

Definition VIEW_FUNCTIONS_literal : gmap string string :=
  dict [("numpy_T", "self"); ("alias", "self"); ("as_strided", "self");
        ("diagonal", "self"); ("expand", "self"); ("permute", "self");
        ("select", "self"); ("slice", "self"); ("split", "self");
        ("split_with_sizes", "self"); ("squeeze", "self"); ("t", "self");
        ("transpose", "self"); ("unfold", "self"); ("unsqueeze", "self");
        ("flatten", "self"); ("view", "self"); ("unbind", "self");
        ("_indices", "self"); ("_values", "self"); ("indices", "self");
        ("values", "self");
        ("sparse_coo_tensor_with_dims_and_tensors", "values")].

(** [for key in keys: table[key] = 'self'] *)
Definition add_self_views (keys : list string) (table : gmap string string)
  : gmap string string :=
  foldl (λ table key, <[key := "self"]> table) table keys.

Definition VIEW_FUNCTIONS : gmap string string :=
  add_self_views VIEW_FUNCTIONS_WITH_METADATA_CHANGE VIEW_FUNCTIONS_literal.

Definition MULTI_OUTPUT_SAFE_FUNCTIONS : gset string :=
  {[ "split"; "split_with_sizes" ]}.

(** [set(table.keys()).union(others)] *)
Definition returns_views (table : gmap string string) (others : gset string)
  : gset string :=
  dom table ∪ others.

Definition RETURNS_VIEWS_OF_INPUT : gset string :=
  returns_views VIEW_FUNCTIONS
    {[ "chunk"; "detach"; "contiguous"; "reshape"; "reshape_as";
       "expand_as"; "view_as"; "real"; "imag"; "narrow"; "movedim";
       "tensor_split" ]}.

(** ** More vocabulary *)

(** The parameters of a legacy list, the sentinel left out, each with the
    keyword-only flag the loop of [load_deprecated_signatures] has when it
    comes to it: set once a sentinel has been seen. *)
Fixpoint legacy_parameters (params : list string) (kwarg_only : bool)
  : list (string * bool) :=
  match params with
  | [] => []
  | param :: rest =>
      if decide (param = "*") then legacy_parameters rest true
      else (param, kwarg_only) :: legacy_parameters rest kwarg_only
  end.

(** The operator name the enricher reads off the schema string. *)
Definition operator_name (declaration : Declaration) : string :=
  default "" (head (Py.split "(" (decl_schema_string declaration))).

(** [s.count(c)] for a character [c]. *)
Fixpoint count_char (c : ascii) (s : string) : nat :=
  match s with
  | "" => 0
  | String b s' => (if decide (c = b) then 1 else 0) + count_char c s'
  end.

(** The non-argument keys of a declaration, which the deep copy of
    [load_deprecated_signatures] takes over as they are. *)
Definition same_but_arguments (c r : Declaration) : Prop :=
  decl_name r = decl_name c ∧
  decl_overload_name r = decl_overload_name c ∧
  decl_inplace r = decl_inplace c ∧
  decl_schema_order_arguments r = decl_schema_order_arguments c ∧
  decl_returns r = decl_returns c ∧
  decl_schema_string r = decl_schema_string c ∧
  decl_formals r = decl_formals c ∧
  decl_schema_order_formals r = decl_schema_order_formals c ∧
  decl_args r = decl_args c ∧
  decl_schema_order_args r = decl_schema_order_args c ∧
  decl_api_name r = decl_api_name c ∧
  decl_type_wrapper_name r = decl_type_wrapper_name c ∧
  decl_operator_name_with_overload r = decl_operator_name_with_overload c ∧
  decl_unqual_operator_name_with_overload r
  = decl_unqual_operator_name_with_overload c ∧
  decl_return_type r = decl_return_type c ∧
  decl_base_name r = decl_base_name c.

(** ** More sample documents *)

(** A declaration whose schema string lacks the namespace. *)
Definition no_namespace : Declaration :=
  mkDeclaration "neg" None false
    [tensor_arg "self"] [tensor_arg "self"] [tensor_ret]
    "neg(Tensor self) -> Tensor"
    None None None None None None None None None None None None.

(** A declaration flagged as deprecated in the schema. *)
Definition flagged_deprecated : Declaration :=
  mkDeclaration "old" None false
    [tensor_arg "self"] [tensor_arg "self"] [tensor_ret]
    "old(Tensor self) -> Tensor"
    (Some true) None None None None None None None None None None None.


(** * Properties *)

(** ** The string methods on examples *)

Example replace_ex1 : Py.replace " &" "" "const Tensor &" = "const Tensor".
Proof. reflexivity. Qed.
Example replace_ex2 : Py.replace "aa" "b" "aaaaa" = "bba".
Proof. reflexivity. Qed.
Example split_ex1 : Py.split "::" "aten::add.Tensor" = ["aten"; "add.Tensor"].
Proof. reflexivity. Qed.
Example split_ex2 : Py.split " " "Tensor  self " = ["Tensor"; ""; "self"; ""].
Proof. reflexivity. Qed.
Example split_ex3 : Py.split ", " "" = [""].
Proof. reflexivity. Qed.
Example join_ex1 : Py.join ", " ["a"; "b"; "c"] = "a, b, c".
Proof. reflexivity. Qed.
Example match_optional_ex1 :
  Py.match_optional "c10::optional<a>b>c" = Some "a>b".
Proof. reflexivity. Qed.
Example match_optional_ex2 : Py.match_optional "c10::optional<>" = None.
Proof. reflexivity. Qed.
Example drop_last_ex1 : Py.drop_last "add_" = "add".
Proof. reflexivity. Qed.

(** ** Lemmas on the string methods *)

Module PyFacts.
Import Py.

Lemma app_nil_l (s : string) : "" +:+ s = s.
Proof. reflexivity. Qed.

Lemma app_cons (c : ascii) (s t : string) :
  String c s +:+ t = String c (s +:+ t).
Proof. reflexivity. Qed.

Lemma app_nil_r (s : string) : s +:+ "" = s.
Proof. induction s as [|c s IH]; [done|]. by rewrite app_cons, IH. Qed.

Lemma app_assoc (s t u : string) : (s +:+ t) +:+ u = s +:+ t +:+ u.
Proof. induction s as [|c s IH]; [done|]. by rewrite !app_cons, IH. Qed.

Lemma length_app (s t : string) :
  String.length (s +:+ t) = String.length s + String.length t.
Proof. induction s as [|c s IH]; [done|]. rewrite app_cons. simpl. lia. Qed.

Lemma strip_prefix_Some (p s r : string) :
  strip_prefix p s = Some r ↔ s = p +:+ r.
Proof.
  revert s. induction p as [|a p IH]; intros s; simpl.
  - rewrite app_nil_l. split; congruence.
  - destruct s as [|b s]; [by split|].
    rewrite app_cons. case_decide as Hab.
    + subst b. rewrite IH. split; congruence.
    + split; [done|]. intros [= ? _]. done.
Qed.

Lemma startswith_true (s p : string) :
  startswith s p = true ↔ ∃ r, s = p +:+ r.
Proof.
  unfold startswith. destruct (strip_prefix p s) as [r|] eqn:E.
  - apply strip_prefix_Some in E. split; eauto.
  - split; [done|]. intros [r Hr]. apply strip_prefix_Some in Hr. congruence.
Qed.

Lemma startswith_length (s p : string) :
  startswith s p = true → String.length p ≤ String.length s.
Proof.
  intros [r ->]%startswith_true. rewrite length_app. lia.
Qed.

Lemma occurs_cons (old : string) (c : ascii) (s : string) :
  occurs old (String c s) = startswith (String c s) old || occurs old s.
Proof. reflexivity. Qed.

(** Replacing a text that does not occur changes nothing. *)
Lemma replace_absent (old new s : string) :
  occurs old s = false → replace old new s = s.
Proof.
  unfold replace. induction s as [|c s IH]; [done|].
  rewrite occurs_cons. intros [H1 H2]%orb_false_elim.
  simpl. rewrite H1. by rewrite IH.
Qed.

(** Replacing by a text that is not longer does not lengthen. *)
Lemma replace_go_length (old new : string) (k : nat) (s : string) :
  String.length new ≤ String.length old →
  String.length (replace_go old new k s) + k `min` String.length s
    ≤ String.length s.
Proof.
  intros Hlen. revert k. induction s as [|c s IH]; intros k.
  - simpl. lia.
  - destruct k as [|k].
    + cbn [replace_go]. destruct (startswith (String c s) old) eqn:E.
      * apply startswith_length in E. simpl in E.
        rewrite length_app.
        specialize (IH (String.length old - 1)). simpl. lia.
      * specialize (IH 0). simpl. lia.
    + specialize (IH k). simpl. lia.
Qed.

Lemma replace_length (old new s : string) :
  String.length new ≤ String.length old →
  String.length (replace old new s) ≤ String.length s.
Proof.
  intros H. pose proof (replace_go_length old new 0 s H). unfold replace. lia.
Qed.

(** Replacing an occurring text by a shorter one shortens. *)
Lemma replace_occurs_length (old new s : string) :
  String.length new < String.length old →
  occurs old s = true →
  String.length (replace old new s) < String.length s.
Proof.
  intros Hlen. unfold replace. induction s as [|c s IH].
  - unfold occurs, startswith. simpl. destruct old; simpl in *; [lia|done].
  - rewrite occurs_cons. intros Hocc. cbn [replace_go].
    destruct (startswith (String c s) old) eqn:E.
    + apply startswith_length in E. simpl in E. rewrite length_app.
      pose proof (replace_go_length old new (String.length old - 1) s).
      simpl. lia.
    + simpl in Hocc. specialize (IH Hocc). simpl. lia.
Qed.

Lemma first_line_length (s : string) :
  String.length (first_line s) ≤ String.length s.
Proof.
  induction s as [|c s IH]; [done|]. simpl. case_decide; simpl; lia.
Qed.

Lemma before_last_gt_length (s g : string) :
  before_last_gt s = Some g → String.length g < String.length s.
Proof.
  revert g. induction s as [|c s IH]; intros g; [done|]. simpl.
  destruct (before_last_gt s) as [g'|].
  - intros [= <-]. specialize (IH g' eq_refl). simpl. lia.
  - case_decide; [|done]. intros [= <-]. simpl. lia.
Qed.

(** The group of a match, with a character added, is still shorter than
    the text matched. *)
Lemma match_optional_length (s g : string) :
  match_optional s = Some g →
  String.length (g +:+ "?") < String.length s.
Proof.
  unfold match_optional.
  destruct (strip_prefix _ s) as [rest|] eqn:E; [|done].
  apply strip_prefix_Some in E. subst s.
  destruct (before_last_gt (first_line rest)) as [[|c g']|] eqn:E'; [done| |done].
  intros [= <-]. apply before_last_gt_length in E'.
  pose proof (first_line_length rest). rewrite !length_app.
  change (String.length "c10::optional<") with 14.
  change (String.length "?") with 1. lia.
Qed.

End PyFacts.

(** ** [get_simple_type] *)

(** [get_simple_type] reads the ['type'] key and nothing else. *)
Lemma get_simple_type_normalize `{HasType A} (arg : A) :
  get_simple_type arg = normalize (getitem_type arg).
Proof. reflexivity. Qed.

Lemma normalize_not_rewritable (t : string) :
  rewritable t = false → normalize t = t.
Proof.
  unfold rewritable. rewrite !orb_false_iff. intros [[[H1 H2] H3] H4].
  unfold normalize, get_simple_type.
  change (getitem_type (mkTypeDict t)) with t.
  rewrite (PyFacts.replace_absent _ _ _ H1), (PyFacts.replace_absent _ _ _ H2),
    (PyFacts.replace_absent _ _ _ H3).
  apply bool_decide_eq_false in H4.
  destruct (Py.match_optional t); [|done]. exfalso. eauto.
Qed.

Lemma normalize_length (t : string) :
  String.length (normalize t) ≤ String.length t.
Proof.
  unfold normalize, get_simple_type.
  change (getitem_type (mkTypeDict t)) with t.
  pose proof (PyFacts.replace_length " &" "" t) as H1.
  pose proof (PyFacts.replace_length "const " "" (Py.replace " &" "" t)) as H2.
  pose proof (PyFacts.replace_length "Generator *" "Generator"
    (Py.replace "const " "" (Py.replace " &" "" t))) as H3.
  simpl in H1, H2, H3.
  destruct (Py.match_optional _) as [g|] eqn:E.
  - apply PyFacts.match_optional_length in E. lia.
  - lia.
Qed.

Lemma normalize_rewritable (t : string) :
  rewritable t = true → String.length (normalize t) < String.length t.
Proof.
  unfold rewritable, normalize, get_simple_type.
  change (getitem_type (mkTypeDict t)) with t.
  pose proof (PyFacts.replace_length " &" "" t) as L1.
  pose proof (PyFacts.replace_length "const " "" (Py.replace " &" "" t)) as L2.
  pose proof (PyFacts.replace_length "Generator *" "Generator"
    (Py.replace "const " "" (Py.replace " &" "" t))) as L3.
  simpl in L1, L2, L3.
  assert (∀ s, String.length
            match Py.match_optional s with
            | Some group1 => group1 +:+ "?"
            | None => s
            end ≤ String.length s) as L4.
  { intros s. destruct (Py.match_optional s) as [g|] eqn:E; [|lia].
    apply PyFacts.match_optional_length in E. lia. }
  set (s1 := Py.replace " &" "" t) in *.
  set (s2 := Py.replace "const " "" s1) in *.
  set (s3 := Py.replace "Generator *" "Generator" s2) in *.
  specialize (L4 s3).
  destruct (Py.occurs " &" t) eqn:O1.
  { intros _. pose proof (PyFacts.replace_occurs_length " &" "" t) as S1.
    simpl in S1. fold s1 in S1. specialize (S1 ltac:(lia) O1). lia. }
  assert (s1 = t) as E1 by by apply PyFacts.replace_absent.
  destruct (Py.occurs "const " t) eqn:O2.
  { intros _. pose proof (PyFacts.replace_occurs_length "const " "" s1) as S2.
    simpl in S2. fold s2 in S2. rewrite E1 in S2 at 1 2.
    specialize (S2 ltac:(lia) O2). lia. }
  assert (s2 = t) as E2.
  { subst s2. rewrite E1. by apply PyFacts.replace_absent. }
  destruct (Py.occurs "Generator *" t) eqn:O3.
  { intros _.
    pose proof (PyFacts.replace_occurs_length "Generator *" "Generator" s2) as S3.
    simpl in S3. fold s3 in S3. rewrite E2 in S3 at 1 2.
    specialize (S3 ltac:(lia) O3). lia. }
  assert (s3 = t) as E3.
  { subst s3. rewrite E2. by apply PyFacts.replace_absent. }
  simpl. intros [g Hg]%bool_decide_eq_true. rewrite E3. rewrite Hg.
  by apply PyFacts.match_optional_length.
Qed.

(** [get_simple_type] leaves a type string as it is exactly when it finds
    nothing to rewrite in it. *)
Lemma normalize_fixed_iff (t : string) :
  normalize t = t ↔ rewritable t = false.
Proof.
  split; [|apply normalize_not_rewritable].
  intros Heq. destruct (rewritable t) eqn:E; [|done].
  apply normalize_rewritable in E. rewrite Heq in E. lia.
Qed.

(** C3, as stated, fails: a nested optional wrapper loses one level per
    application, so a second application still changes the result. *)
Lemma normalize_not_idempotent :
  ¬ (∀ t : string, normalize (normalize t) = normalize t).
Proof.
  intros H. specialize (H "c10::optional<c10::optional<int64_t>>").
  vm_compute in H. discriminate H.
Qed.

(** C3, amended: applying the type normalizer a second time changes nothing
    exactly for the type strings whose simple type holds none of the texts
    the normalizer rewrites (" &", "const ", "Generator *", a leading
    "c10::optional<...>"). *)
Theorem normalize_idempotent_iff (t : string) :
  normalize (normalize t) = normalize t ↔ rewritable (normalize t) = false.
Proof. apply normalize_fixed_iff. Qed.

(** The usual type strings are of that kind. *)
Example normalize_idempotent_ex1 :
  normalize "const c10::optional<Tensor>&" = "Tensor?" ∧
  normalize (normalize "const c10::optional<Tensor>&") = "Tensor?".
Proof. split; reflexivity. Qed.
Example normalize_ex2 : normalize "Generator *" = "Generator".
Proof. reflexivity. Qed.
Example normalize_ex3 : normalize "const Tensor &" = "Tensor".
Proof. reflexivity. Qed.

(** C4, as stated, fails: the group of the match is copied as it is, and
    nothing renames [int64_t]. *)
Lemma optional_int64_not_renamed :
  ¬ (∀ arg : Argument, arg_type arg = "c10::optional<int64_t>" →
       get_simple_type arg = "int64?").
Proof.
  intros H.
  specialize (H (mkArgument "dim" "c10::optional<int64_t>" "int64_t"
                   None None None None) eq_refl).
  vm_compute in H. discriminate H.
Qed.

(** C4, amended: the simple type of "c10::optional<int64_t>" is
    "int64_t?": the wrapped type as it is spelt, followed by the optional
    marker. *)
Theorem optional_int64_simple_type `{HasType A} (arg : A) :
  getitem_type arg = "c10::optional<int64_t>" →
  get_simple_type arg = "int64_t?".
Proof. intros Harg. rewrite get_simple_type_normalize, Harg. reflexivity. Qed.

Lemma optional_int64_simple_type_witness :
  get_simple_type (mkReturn "c10::optional<int64_t>" "int64_t" None)
  = "int64_t?".
Proof. apply optional_int64_simple_type. reflexivity. Defined.

(** ** [format_return_type] *)

Lemma join_cons_cons (sep x y : string) (l : list string) :
  Py.join sep (x :: y :: l) = x +:+ sep +:+ Py.join sep (y :: l).
Proof. reflexivity. Qed.

(** A join written as a fold: every item after the first is preceded by the
    separator. *)
Lemma join_foldr (sep x : string) (l : list string) (tail : string) :
  Py.join sep (x :: l) +:+ tail
  = x +:+ foldr (λ y acc, sep +:+ y +:+ acc) tail l.
Proof.
  revert x. induction l as [|y l IH]; intros x; [done|].
  rewrite join_cons_cons. cbn [foldr]. rewrite <- IH.
  by rewrite !PyFacts.app_assoc.
Qed.

(** ** [load_aten_declarations] *)

Lemma enrich_Ok (declaration : Declaration) :
  (enrich declaration).2 = Ok () →
  decl_base_name (enrich declaration).1 = Some (decl_name declaration) ∧
  decl_return_type (enrich declaration).1
  = Some (format_return_type (decl_returns declaration)).
Proof.
  unfold enrich. destruct (getindex _ 1) as [unqual|e]; [|done].
  intros _. cbn [fst decl_base_name decl_return_type]. split; [done|].
  f_equal. unfold format_return_type.
  destruct (decl_returns declaration) as [|r1 [|r2 rs]]; [done..|].
  cbn [map]. do 2 f_equal. clear.
  change (ret_type (set_ret_simple_type r1)) with (ret_type r1).
  change (ret_type (set_ret_simple_type r2)) with (ret_type r2).
  do 3 f_equal. induction rs as [|r rs IH]; [done|]. cbn [map]. by rewrite IH.
Qed.

(** C8: the rendered return type is "void" for no return, the type of the
    return when there is one, and for two or more the types in declaration
    order, separated by commas, inside "std::tuple<" and ">"; two [Tensor]
    returns give "std::tuple<Tensor,Tensor>".  That rendering is what the
    enricher stores under ['return_type']. *)
Theorem format_return_type_rendering :
  format_return_type [] = "void" ∧
  (∀ r, format_return_type [r] = ret_type r) ∧
  (∀ r1 r2 rs,
     format_return_type (r1 :: r2 :: rs)
     = "std::tuple<" +:+ ret_type r1
         +:+ foldr (λ r acc, "," +:+ ret_type r +:+ acc) ">" (r2 :: rs)) ∧
  (∀ r1 r2, ret_type r1 = "Tensor" → ret_type r2 = "Tensor" →
     format_return_type [r1; r2] = "std::tuple<Tensor,Tensor>") ∧
  (∀ declaration, (enrich declaration).2 = Ok () →
     decl_return_type (enrich declaration).1
     = Some (format_return_type (decl_returns declaration))).
Proof.
  split_and!; [done|done| | |].
  - intros r1 r2 rs. unfold format_return_type. f_equal.
    change (map ret_type (r1 :: r2 :: rs))
      with (ret_type r1 :: map ret_type (r2 :: rs)).
    rewrite (join_foldr "," (ret_type r1) (map ret_type (r2 :: rs)) ">").
    f_equal. generalize (r2 :: rs). clear.
    intros l. induction l as [|r l IH]; [done|]. cbn [map foldr]. by rewrite IH.
  - intros r1 r2 H1 H2. unfold format_return_type. cbn [map Py.join].
    by rewrite H1, H2.
  - intros declaration H. by apply enrich_Ok.
Qed.

Lemma format_return_type_rendering_witness :
  format_return_type [tensor_ret; tensor_ret] = "std::tuple<Tensor,Tensor>" ∧
  decl_return_type (enrich max_dim).1 = Some "std::tuple<Tensor,Tensor>".
Proof.
  destruct format_return_type_rendering as (_ & _ & _ & Htensors & Henrich).
  split.
  - apply Htensors; reflexivity.
  - rewrite Henrich; reflexivity.
Defined.


Lemma Forall2_map_r_same {A} (R : A → A → Prop) (f : A → A) (l : list A) :
  (∀ x, R x (f x)) → Forall2 R l (map f l).
Proof. intros HR. induction l; constructor; auto. Qed.

(** The enricher assigns derived keys only. *)
Lemma enrich_same_authored_keys (d : Declaration) :
  same_authored_keys d (enrich d).1.
Proof.
  unfold enrich. destruct (getindex _ 1);
    cbn [fst]; unfold same_authored_keys; cbn;
    split_and!; try done; by apply Forall2_map_r_same.
Qed.

Lemma not_deprecated_insert_ne (h : Heap) (l l' : loc) (d : Declaration) :
  l ≠ l' → not_deprecated (<[l := d]> h) l' = not_deprecated h l'.
Proof.
  intros Hne. unfold not_deprecated. by rewrite list_lookup_insert_ne.
Qed.

(** What the loop does to the heap, for a list of distinct addresses. *)
Lemma enrich_all_spec (declarations : list loc) :
  NoDup declarations →
  ∀ (h h' : Heap) (r : Result (list loc)),
    (∀ l, l ∈ declarations → l < length h) →
    enrich_all declarations h = (h', r) →
    length h' = length h ∧
    (∀ l, l ∉ declarations → h' !! l = h !! l) ∧
    (∀ l d, h !! l = Some d →
       h' !! l = Some d ∨
       (l ∈ declarations ∧ truthy_bool (decl_deprecated d) = false ∧
        h' !! l = Some (enrich d).1)) ∧
    (∀ refs, r = Ok refs →
       refs = filter (λ l, Is_true (not_deprecated h l)) declarations ∧
       ∀ l d, l ∈ refs → h !! l = Some d →
         h' !! l = Some (enrich d).1 ∧ (enrich d).2 = Ok ()).
Proof.
  induction 1 as [|l rest Hl Hrest IH]; intros h h' r Hvalid Hrun.
  { injection Hrun as <- <-. split_and!; eauto.
    intros refs [= <-]. split; [done|]. intros l d Hin. by apply elem_of_nil in Hin. }
  cbn [enrich_all] in Hrun.
  destruct (h !! l) as [d|] eqn:Hd; cycle 1.
  { apply lookup_ge_None in Hd. specialize (Hvalid l ltac:(left)). lia. }
  destruct (truthy_bool (decl_deprecated d)) eqn:Hdep.
  - (* the declaration is skipped *)
    apply IH in Hrun as (Hlen & Hout & Hcell & Hsel);
      [|intros; apply Hvalid; by right].
    split_and!; [done| | |].
    + intros l0 Hl0. apply Hout. intros ?. apply Hl0. by right.
    + intros l0 d0 Hd0. destruct (Hcell l0 d0 Hd0) as [?|(?&?&?)]; [by left|].
      right. split_and!; [by right|done..].
    + intros refs Hrefs. destruct (Hsel refs Hrefs) as [-> Hmem]. split; [|done].
      rewrite filter_cons_False; [done|].
      unfold not_deprecated. rewrite Hd, Hdep. simpl. tauto.
  - destruct (enrich d) as [d' rr] eqn:Henrich.
    assert (not_deprecated h l) as Hnd.
    { unfold not_deprecated. by rewrite Hd, Hdep. }
    assert (∀ l0, l0 ∈ rest → l0 ≠ l) as Hne by (intros l0 ? ->; done).
    destruct rr as [[]|e].
    + (* the body runs to its end *)
      destruct (enrich_all rest (<[l:=d']> h)) as [h'' sel] eqn:Hrest'.
      injection Hrun as <- <-.
      apply IH in Hrest' as (Hlen & Hout & Hcell & Hsel);
        [|intros; rewrite length_insert; apply Hvalid; by right].
      rewrite length_insert in Hlen.
      assert (h'' !! l = Some d') as Hl''.
      { rewrite (Hout l Hl). apply list_lookup_insert_eq.
        by apply lookup_lt_Some in Hd. }
      split_and!; [done| | |].
      * intros l0 Hl0. rewrite Hout by (intros ?; apply Hl0; by right).
        apply list_lookup_insert_ne. intros ->. apply Hl0. by left.
      * intros l0 d0 Hd0. destruct (decide (l0 = l)) as [->|Hneq].
        { right. rewrite Hd in Hd0. injection Hd0 as <-.
          split_and!; [by left|done|]. by rewrite Henrich. }
        destruct (Hcell l0 d0) as [?|(?&?&?)];
          [by rewrite list_lookup_insert_ne| by left |].
        right. split_and!; [by right|done..].
      * intros refs Hrefs. destruct sel as [refs'|e]; [|done].
        injection Hrefs as <-. destruct (Hsel refs' eq_refl) as [Hrefs' Hmem].
        assert (refs' = filter (λ l0, Is_true (not_deprecated h l0)) rest) as Hfilter.
        { rewrite Hrefs'. clear -Hne.
          induction rest as [|x rest IH]; [done|].
          rewrite !filter_cons.
          rewrite not_deprecated_insert_ne
            by (intros ->; by apply (Hne x); [left|]).
          rewrite IH; [done|]. intros l0 ?. apply Hne. by right. }
        split.
        { rewrite filter_cons_True by done. by rewrite <- Hfilter. }
        intros l0 d0 [->|Hin]%elem_of_cons Hd0.
        { rewrite Hd in Hd0. injection Hd0 as <-. by rewrite Henrich. }
        assert (l0 ∈ rest) as Hl0.
        { rewrite Hfilter in Hin. by apply list_elem_of_filter in Hin as [_ ?]. }
        apply Hmem; [done|].
        rewrite list_lookup_insert_ne; [done|]. intros Heq.
        by apply (Hne l0 Hl0).
    + (* the body raises *)
      injection Hrun as <- <-. split_and!.
      * apply length_insert.
      * intros l0 Hl0. apply list_lookup_insert_ne. intros ->. apply Hl0. by left.
      * intros l0 d0 Hd0. destruct (decide (l0 = l)) as [->|Hneq].
        { right. rewrite Hd in Hd0. injection Hd0 as <-.
          split_and!; [by left|done|]. rewrite Henrich.
          apply list_lookup_insert_eq. by apply lookup_lt_Some in Hd. }
        left. by rewrite list_lookup_insert_ne.
      * intros refs [=].
Qed.

Lemma NoDup_seq0 (n : nat) : NoDup (seq 0 n).
Proof. apply NoDup_ListNoDup, List.seq_NoDup. Qed.

Lemma load_aten_declarations_spec (h h' : Heap) (r : Result (list loc)) :
  load_aten_declarations h = (h', r) →
  length h' = length h ∧
  (∀ l d, h !! l = Some d →
     h' !! l = Some d ∨
     (truthy_bool (decl_deprecated d) = false ∧ h' !! l = Some (enrich d).1)) ∧
  (∀ refs, r = Ok refs →
     refs = filter (λ l, Is_true (not_deprecated h l)) (seq 0 (length h)) ∧
     ∀ l d, l ∈ refs → h !! l = Some d →
       h' !! l = Some (enrich d).1 ∧ (enrich d).2 = Ok ()).
Proof.
  intros Hrun. unfold load_aten_declarations in Hrun.
  apply enrich_all_spec in Hrun as (Hlen & _ & Hcell & Hsel).
  - split_and!; [done| |done].
    intros l d Hd. destruct (Hcell l d Hd) as [?|(_&?&?)]; auto.
  - apply NoDup_seq0.
  - intros l Hl%elem_of_seq. lia.
Qed.




(** ** The two base names *)






(** ** The [Result] monad *)

Lemma mapM_cons {A B} (f : A → Result B) (x : A) (l : list A) :
  mapM f (x :: l) = (y ← f x; ys ← mapM f l; Ok (y :: ys)).
Proof. reflexivity. Qed.

Lemma bind_Ok_inv {A B} (m : Result A) (k : A → Result B) (b : B) :
  m ≫= k = Ok b → ∃ a, m = Ok a ∧ k a = Ok b.
Proof. destruct m as [a|e]; [eauto|done]. Qed.

Lemma mapM_Ok {A B} (f : A → Result B) (l : list A) (k : list B) :
  mapM f l = Ok k ↔ Forall2 (λ x y, f x = Ok y) l k.
Proof.
  revert k. induction l as [|x l IH]; intros k.
  - split; [intros [= <-]; constructor|]. by intros ->%Forall2_nil_inv_l.
  - rewrite mapM_cons. split.
    + intros (y & Hy & (ys & Hys & [= <-])%bind_Ok_inv)%bind_Ok_inv.
      constructor; [done|]. by apply IH.
    + intros (y & ys & Hy & Hys & ->)%Forall2_cons_inv_l.
      rewrite Hy. apply IH in Hys. cbn. by rewrite Hys.
Qed.

Lemma mapM_app_Ok {A B} (f : A → Result B) (l1 l2 : list A) (k1 k2 : list B) :
  mapM f l1 = Ok k1 → mapM f l2 = Ok k2 → mapM f (l1 ++ l2) = Ok (k1 ++ k2).
Proof.
  rewrite !mapM_Ok. apply Forall2_app.
Qed.

Lemma mapM_getitem_Ok {A B} (key : string) (f : A → option B)
    (l : list A) (k : list B) :
  mapM (λ x, getitem key (f x)) l = Ok k ↔ map f l = map Some k.
Proof.
  rewrite mapM_Ok. revert k. induction l as [|x l IH]; intros k.
  - split; [by intros ->%Forall2_nil_inv_l|].
    destruct k; [constructor|done].
  - split.
    + intros (y & ys & Hy & Hys & ->)%Forall2_cons_inv_l. cbn.
      apply IH in Hys. rewrite Hys. f_equal.
      by destruct (f x); simplify_eq/=.
    + destruct k as [|y ys]; [done|]. cbn. intros [= Hx Hl].
      constructor; [by rewrite Hx|]. by apply IH.
Qed.

(** ** [group_declarations_by_signature] *)

(** The grouper's key depends on the declaration through its base name and
    the simple types of its arguments only. *)
Lemma declaration_signature_Ok (declaration : Declaration) (key : string) :
  declaration_signature declaration = Ok key ↔
  ∃ types, simple_types declaration = map Some types ∧
    key = signature_base_name declaration +:+ "("
            +:+ Py.join ", " types +:+ ")".
Proof.
  unfold declaration_signature, simple_types. split.
  - intros (types & Htypes%mapM_getitem_Ok & [= <-])%bind_Ok_inv. eauto.
  - intros (types & Htypes%(mapM_getitem_Ok "simple_type") & ->).
    by rewrite Htypes.
Qed.

Lemma declaration_signature_ext (d1 d2 : Declaration) :
  signature_base_name d1 = signature_base_name d2 →
  simple_types d1 = simple_types d2 →
  declaration_signature d1 = declaration_signature d2.
Proof.
  intros Hbase Htypes.
  destruct (declaration_signature d1) as [key|e] eqn:E1.
  - apply declaration_signature_Ok in E1 as (types & H1 & ->).
    symmetry. apply declaration_signature_Ok. exists types.
    by rewrite <- Htypes, <- Hbase.
  - unfold declaration_signature, simple_types in *.
    rewrite <- Hbase.
    assert (∀ l1 l2 : list Argument,
              map arg_simple_type l1 = map arg_simple_type l2 →
              mapM (λ arg, getitem "simple_type" (arg_simple_type arg)) l1
              = mapM (λ arg, getitem "simple_type" (arg_simple_type arg)) l2)
      as Hext.
    { clear. induction l1 as [|x l1 IH]; intros [|y l2]; try done.
      cbn [map]. intros [= Hxy Hl]. rewrite !mapM_cons, Hxy.
      by rewrite (IH l2 Hl). }
    rewrite <- (Hext _ _ Htypes). by rewrite E1.
Qed.

Lemma defaultdict_getitem_fst {V} (d : gmap string (list V)) (key : string) :
  (defaultdict_getitem d key).1 = default [] (d !! key).
Proof. unfold defaultdict_getitem. by destruct (d !! key). Qed.

(** Reading a [defaultdict] leaves what every key reads as unchanged. *)
Lemma defaultdict_getitem_snd {V} (d : gmap string (list V)) (key key' : string) :
  default [] ((defaultdict_getitem d key).2 !! key') = default [] (d !! key').
Proof.
  unfold defaultdict_getitem. destruct (d !! key) eqn:E; [done|]. cbn.
  destruct (decide (key = key')) as [<-|Hne].
  - by rewrite lookup_insert_eq, E.
  - by rewrite lookup_insert_ne.
Qed.

(** The bucket of a key holds, in order, the declarations with that key. *)
Lemma group_loop_lookup (aten_decls : list Declaration)
    (d0 d : gmap string (list Declaration)) :
  group_loop aten_decls d0 = Ok d →
  Forall (λ x, ∃ key, declaration_signature x = Ok key) aten_decls ∧
  ∀ key, default [] (d !! key)
         = default [] (d0 !! key)
           ++ filter (λ x, declaration_signature x = Ok key) aten_decls.
Proof.
  revert d0. induction aten_decls as [|x rest IH]; intros d0.
  - intros [= <-]. split; [constructor|]. intros key. by rewrite app_nil_r.
  - cbn [group_loop].
    intros (sig & Hsig & Hrest)%bind_Ok_inv.
    pose proof (defaultdict_getitem_fst d0 sig) as Hfst.
    pose proof (defaultdict_getitem_snd d0 sig) as Hsnd.
    destruct (defaultdict_getitem d0 sig) as [bucket d0']. cbn in Hfst, Hsnd.
    apply IH in Hrest as [Hall Hrest]. split; [constructor; eauto|].
    intros key. rewrite Hrest, filter_cons, Hsig.
    destruct (decide (sig = key)) as [<-|Hne].
    + rewrite lookup_insert_eq. cbn [default from_option id].
      rewrite decide_True by done. by rewrite Hfst, <- app_assoc.
    + rewrite lookup_insert_ne by done. rewrite Hsnd.
      rewrite decide_False; [done|]. by intros [= ?].
Qed.

Lemma group_declarations_by_signature_lookup (aten_decls : list Declaration)
    (d : gmap string (list Declaration)) :
  group_declarations_by_signature aten_decls = Ok d →
  Forall (λ x, ∃ key, declaration_signature x = Ok key) aten_decls ∧
  ∀ key, default [] (d !! key)
         = filter (λ x, declaration_signature x = Ok key) aten_decls.
Proof.
  intros [Hall Hd]%group_loop_lookup. split; [done|].
  intros key. by rewrite Hd, lookup_empty.
Qed.

Lemma same_bucket_iff (aten_decls : list Declaration)
    (d : gmap string (list Declaration)) (d1 d2 : Declaration) :
  group_declarations_by_signature aten_decls = Ok d →
  d1 ∈ aten_decls → d2 ∈ aten_decls →
  same_bucket d d1 d2 ↔ declaration_signature d1 = declaration_signature d2.
Proof.
  intros [Hall Hd]%group_declarations_by_signature_lookup H1 H2.
  rewrite Forall_forall in Hall. destruct (Hall d1 H1) as [key1 Hkey1].
  split.
  - intros (key & bucket & Hbucket & Hin1 & Hin2).
    specialize (Hd key). rewrite Hbucket in Hd. cbn in Hd. subst bucket.
    apply list_elem_of_filter in Hin1 as [-> _].
    by apply list_elem_of_filter in Hin2 as [-> _].
  - intros Heq. exists key1.
    specialize (Hd key1).
    assert (d1 ∈ default [] (d !! key1)) as Hin1.
    { rewrite Hd. by apply list_elem_of_filter. }
    destruct (d !! key1) as [bucket|]; [|by apply elem_of_nil in Hin1].
    exists bucket. split_and!; [done..|].
    cbn in Hd. rewrite Hd. apply list_elem_of_filter. by rewrite <- Heq.
Qed.

(** ** Reading a signature text back *)

Module SignatureText.
Import Py PyFacts.

Ltac push_app := rewrite ?app_cons, ?app_nil_l in *.

Lemma app_inj_2 (s s' t : string) : s +:+ t = s' +:+ t → s = s'.
Proof.
  revert s'. induction s as [|a s IH]; intros [|b s'] Heq; push_app.
  - done.
  - apply (f_equal String.length) in Heq. cbn in Heq.
    rewrite length_app in Heq. lia.
  - apply (f_equal String.length) in Heq. cbn in Heq.
    rewrite length_app in Heq. lia.
  - injection Heq as -> Heq. f_equal. by apply IH.
Qed.

Lemma occurs_app_sep (sep a x : string) :
  occurs sep (a +:+ sep +:+ x) = true.
Proof.
  induction a as [|c a IH]; push_app.
  - assert (startswith (sep +:+ x) sep = true) as Hstart
      by (apply startswith_true; eauto).
    destruct (sep +:+ x); cbn [occurs]; by rewrite Hstart.
  - rewrite occurs_cons, IH. apply orb_true_r.
Qed.

Lemma occurs_cons_false (sep : string) (c : ascii) (s : string) :
  occurs sep (String c s) = false → occurs sep s = false.
Proof. rewrite occurs_cons. by intros [_ ?]%orb_false_elim. Qed.

(** The first ", " of a text is where its first piece ends. *)
Lemma comma_space_first (a b x y : string) :
  occurs ", " a = false → occurs ", " b = false →
  a +:+ ", " +:+ x = b +:+ ", " +:+ y → a = b ∧ x = y.
Proof.
  revert b. induction a as [|c a IH]; intros [|c' b] Ha Hb Heq; push_app.
  - by injection Heq.
  - injection Heq as <- Heq. destruct b as [|c'' b]; push_app; [done|].
    injection Heq as <- _. done.
  - injection Heq as -> Heq. destruct a as [|c'' a]; push_app; [done|].
    injection Heq as -> _. done.
  - injection Heq as -> Heq.
    apply occurs_cons_false in Ha, Hb.
    destruct (IH b Ha Hb Heq) as [-> ->]. done.
Qed.

(** The first parenthesis of a text is where its first piece ends. *)
Lemma paren_first (a b x y : string) :
  occurs "(" a = false → occurs "(" b = false →
  a +:+ "(" +:+ x = b +:+ "(" +:+ y → a = b ∧ x = y.
Proof.
  revert b. induction a as [|c a IH]; intros [|c' b] Ha Hb Heq; push_app.
  - by injection Heq.
  - injection Heq as <- _. done.
  - injection Heq as -> _. done.
  - injection Heq as -> Heq.
    apply occurs_cons_false in Ha, Hb.
    destruct (IH b Ha Hb Heq) as [-> ->]. done.
Qed.

(** Joining with ", " loses nothing when no item is empty or holds the
    separator. *)
Lemma join_comma_space_inj (l1 l2 : list string) :
  Forall (λ s, s ≠ "" ∧ occurs ", " s = false) l1 →
  Forall (λ s, s ≠ "" ∧ occurs ", " s = false) l2 →
  join ", " l1 = join ", " l2 → l1 = l2.
Proof.
  intros H1. revert l2.
  induction H1 as [|x l1 [Hx Hxsep] H1 IH]; intros l2 H2 Heq.
  - destruct H2 as [|y l2 [Hy _] _]; [done|]. exfalso.
    destruct l2; cbn [join] in Heq; [done|].
    destruct y; [done|]. by push_app.
  - destruct H2 as [|y l2 [Hy Hysep] H2].
    { exfalso. destruct l1; cbn [join] in Heq; [done|].
      destruct x; [done|]. by push_app. }
    destruct l1 as [|x' l1], l2 as [|y' l2].
    + cbn [join] in Heq. by subst.
    + exfalso. change (x = y +:+ ", " +:+ join ", " (y' :: l2)) in Heq.
      pose proof (occurs_app_sep ", " y (join ", " (y' :: l2))). congruence.
    + exfalso. change (x +:+ ", " +:+ join ", " (x' :: l1) = y) in Heq.
      pose proof (occurs_app_sep ", " x (join ", " (x' :: l1))). congruence.
    + change (x +:+ ", " +:+ join ", " (x' :: l1)
              = y +:+ ", " +:+ join ", " (y' :: l2)) in Heq.
      apply comma_space_first in Heq as [-> Heq]; [|done..].
      f_equal. by apply IH.
Qed.

(** A signature text determines its base name and its list of types,
    under the same conditions. *)
Lemma signature_text_inj (base1 base2 : string) (types1 types2 : list string) :
  occurs "(" base1 = false → occurs "(" base2 = false →
  Forall (λ s, s ≠ "" ∧ occurs ", " s = false) types1 →
  Forall (λ s, s ≠ "" ∧ occurs ", " s = false) types2 →
  base1 +:+ "(" +:+ join ", " types1 +:+ ")"
  = base2 +:+ "(" +:+ join ", " types2 +:+ ")" →
  base1 = base2 ∧ types1 = types2.
Proof.
  intros Hb1 Hb2 Ht1 Ht2 Heq.
  apply paren_first in Heq as [-> Heq]; [|done..].
  apply app_inj_2 in Heq. split; [done|]. by apply join_comma_space_inj.
Qed.

End SignatureText.

(** ** The grouper's buckets *)

(** C2, as stated, fails in the direction from bucket to key: the bucket is
    named by the signature text, and the two declarations of [f] above have
    the text "f(A, B)" in common. *)
Lemma same_bucket_different_types :
  ¬ (∀ (h : Heap) (aten_decls : list Declaration)
       (d : gmap string (list Declaration)) (d1 d2 : Declaration),
       loaded_declarations h = Ok aten_decls →
       group_declarations_by_signature aten_decls = Ok d →
       d1 ∈ aten_decls → d2 ∈ aten_decls →
       same_bucket d d1 d2 ↔
       signature_base_name d1 = signature_base_name d2 ∧
       simple_types d1 = simple_types d2).
Proof.
  intros H.
  set (e1 := (enrich f_one_argument).1).
  set (e2 := (enrich f_two_arguments).1).
  assert (loaded_declarations [f_one_argument; f_two_arguments]
          = Ok [e1; e2]) as Hload by reflexivity.
  destruct (group_declarations_by_signature [e1; e2]) as [d|] eqn:Hgroup;
    [|by vm_compute in Hgroup].
  assert (e1 ∈ [e1; e2]) as H1 by by left.
  assert (e2 ∈ [e1; e2]) as H2 by (right; by left).
  specialize (H _ _ d e1 e2 Hload Hgroup H1 H2).
  assert (same_bucket d e1 e2) as Hsame.
  { apply (same_bucket_iff [e1; e2]); [done..|]. reflexivity. }
  apply H in Hsame as [_ Htypes]. by vm_compute in Htypes.
Qed.

Lemma plain_signature_types (declaration : Declaration) (types : list string) :
  plain_signature declaration →
  simple_types declaration = map Some types →
  Forall (λ s, s ≠ "" ∧ Py.occurs ", " s = false) types.
Proof.
  intros [_ Hplain] Htypes. rewrite Htypes in Hplain. clear Htypes.
  induction types as [|t types IH]; [constructor|].
  apply Forall_cons in Hplain as [(s & [= <-] & ? & ?) Hplain].
  constructor; [done|]. by apply IH.
Qed.

(** C2, amended: two declarations are in the same bucket exactly when their
    signature texts "base_name(type, type, ...)" are the same text.  The
    same base name and the same sequence of simple types give the same text,
    whatever the argument names and defaults.  The text gives them back
    when it can be read back: when no base name holds a parenthesis and no
    simple type is empty or holds ", ". *)
Theorem grouper_buckets (aten_decls : list Declaration)
    (d : gmap string (list Declaration)) (d1 d2 : Declaration) :
  group_declarations_by_signature aten_decls = Ok d →
  d1 ∈ aten_decls → d2 ∈ aten_decls →
  (same_bucket d d1 d2 ↔ declaration_signature d1 = declaration_signature d2) ∧
  (signature_base_name d1 = signature_base_name d2 →
   simple_types d1 = simple_types d2 →
   same_bucket d d1 d2) ∧
  (plain_signature d1 → plain_signature d2 →
   same_bucket d d1 d2 →
   signature_base_name d1 = signature_base_name d2 ∧
   simple_types d1 = simple_types d2).
Proof.
  intros Hgroup H1 H2.
  pose proof (same_bucket_iff aten_decls d d1 d2 Hgroup H1 H2) as Hiff.
  split_and!; [done| |].
  - intros Hbase Htypes. apply Hiff. by apply declaration_signature_ext.
  - intros Hp1 Hp2 Hsame%Hiff.
    apply group_declarations_by_signature_lookup in Hgroup as [Hall _].
    rewrite Forall_forall in Hall. destruct (Hall d1 H1) as [key Hkey1].
    assert (declaration_signature d2 = Ok key) as Hkey2 by congruence.
    apply declaration_signature_Ok in Hkey1 as (types1 & Ht1 & ->).
    apply declaration_signature_Ok in Hkey2 as (types2 & Ht2 & Heq).
    apply SignatureText.signature_text_inj in Heq as [Hbase Htypes].
    + split; [done|]. by rewrite Ht1, Ht2, Htypes.
    + apply Hp1.
    + apply Hp2.
    + by apply (plain_signature_types d1).
    + by apply (plain_signature_types d2).
Qed.

Lemma grouper_buckets_witness :
  ∃ d, group_declarations_by_signature
         [(enrich add_Tensor).1; (enrich add__Tensor).1] = Ok d ∧
       same_bucket d (enrich add_Tensor).1 (enrich add__Tensor).1 ∧
       signature_base_name (enrich add_Tensor).1
       = signature_base_name (enrich add__Tensor).1 ∧
       simple_types (enrich add_Tensor).1 = simple_types (enrich add__Tensor).1.
Proof.
  set (e1 := (enrich add_Tensor).1). set (e2 := (enrich add__Tensor).1).
  destruct (group_declarations_by_signature [e1; e2]) as [d|] eqn:Hgroup;
    [|by vm_compute in Hgroup].
  assert (e1 ∈ [e1; e2]) as H1 by by left.
  assert (e2 ∈ [e1; e2]) as H2 by (right; by left).
  destruct (grouper_buckets [e1; e2] d e1 e2 Hgroup H1 H2)
    as (_ & Hsame & Hback).
  assert (∀ e, e = e1 ∨ e = e2 → plain_signature e) as Hplain.
  { intros e [-> | ->]; (split; [reflexivity|]);
      repeat (constructor;
              [eexists; split_and!; [reflexivity|discriminate|reflexivity]|]);
      constructor. }
  exists d. split; [done|].
  assert (same_bucket d e1 e2) as Hbucket by (apply Hsame; reflexivity).
  split; [exact Hbucket|].
  apply Hback; [apply Hplain; by left|apply Hplain; by right|exact Hbucket].
Defined.

(** ** [get_signature] *)

Lemma lookup_map {A B} (f : A → B) (l : list A) (i : nat) :
  map f l !! i = f <$> l !! i.
Proof.
  revert i. induction l as [|x l IH]; intros [|i]; try done. apply IH.
Qed.

Lemma dict_foldl_notin {V} (pairs : list (string * V)) (m : gmap string V)
    (k : string) :
  (∀ v, (k, v) ∉ pairs) →
  foldl (λ m kv, <[kv.1 := kv.2]> m) m pairs !! k = m !! k.
Proof.
  revert m. induction pairs as [|[k' v'] pairs IH]; intros m Hk; [done|].
  cbn [foldl]. rewrite IH.
  - cbn. apply lookup_insert_ne. intros ->. apply (Hk v'). by left.
  - intros v Hin. apply (Hk v). by right.
Qed.

(** In [dict(pairs)] a key reads as the value of its last pair. *)
Lemma dict_lookup_last {V} (before after : list (string * V))
    (k : string) (v : V) :
  (∀ v', (k, v') ∉ after) →
  dict (before ++ (k, v) :: after) !! k = Some v.
Proof.
  intros Hafter. unfold dict. rewrite foldl_app. cbn [foldl].
  rewrite dict_foldl_notin by done. cbn. apply lookup_insert_eq.
Qed.

Lemma dict_lookup_None {V} (pairs : list (string * V)) (k : string) :
  (∀ v, (k, v) ∉ pairs) → dict pairs !! k = None.
Proof. intros Hk. unfold dict. by rewrite dict_foldl_notin. Qed.

Lemma split_param_Ok (param param_type param_name : string) :
  split_param param = Ok (param_type, param_name) ↔
  Py.split " " param = [param_type; param_name].
Proof.
  unfold split_param.
  destruct (Py.split " " param) as [|t [|n [|]]]; split; congruence.
Qed.

Lemma param_pair_Ok (param : string) (kv : string * string) :
  ('(param_type, param_name) ← split_param param; Ok (param_name, param_type))
  = Ok kv ↔ Py.split " " param = [kv.2; kv.1].
Proof.
  destruct kv as [k v]. rewrite <- split_param_Ok. cbn.
  destruct (split_param param) as [[t n]|e]; cbn; split; congruence.
Qed.

(** C6: in the rearranged type sequence a call argument that names a
    parameter of the legacy list (the sentinel "*" is not a parameter) has
    that parameter's declared type, the last declaration counting if the
    name is declared more than once; a call argument that names no
    parameter has the type "Scalar".  The signature is the callee name
    followed by that sequence. *)
Theorem rearranged_types_assignment (name : string)
    (params call_args rearranged : list string) :
  rearranged_types params call_args = Ok rearranged →
  get_signature name params call_args
  = Ok (name +:+ "(" +:+ Py.join ", " rearranged +:+ ")") ∧
  length rearranged = length call_args ∧
  ∀ i arg, call_args !! i = Some arg →
    (∀ before param after param_type,
       params = before ++ param :: after → param ≠ "*" →
       Py.split " " param = [param_type; arg] →
       (∀ p t, p ∈ after → Py.split " " p ≠ [t; arg]) →
       rearranged !! i = Some param_type) ∧
    ((∀ p t, p ∈ params → p ≠ "*" → Py.split " " p ≠ [t; arg]) →
     rearranged !! i = Some "Scalar").
Proof.
  intros Hrun. split; [unfold get_signature; by rewrite Hrun|].
  unfold rearranged_types in Hrun.
  apply bind_Ok_inv in Hrun as (pairs & Hpairs%mapM_Ok & [= <-]).
  split; [by rewrite length_map|].
  intros i arg Harg. rewrite lookup_map, Harg. cbn [fmap option_fmap option_map].
  split.
  - intros before param after param_type -> Hparam Hsplit Hlast.
    rewrite filter_app, filter_cons_True in Hpairs by done.
    apply Forall2_app_inv_l in Hpairs as (p1 & p2' & _ & Hp2 & ->).
    apply Forall2_cons_inv_l in Hp2 as ([k v] & p2 & Hkv & Hp2 & ->).
    apply param_pair_Ok in Hkv. rewrite Hsplit in Hkv.
    injection Hkv as <- <-. rewrite dict_lookup_last; [done|].
    intros v' (j & Hj)%list_elem_of_lookup.
    destruct (Forall2_lookup_r _ _ _ _ _ Hp2 Hj) as (p & Hp & Hpv).
    apply param_pair_Ok in Hpv.
    apply (Hlast p v'); [|done].
    apply list_elem_of_lookup_2 in Hp.
    by apply list_elem_of_filter in Hp as [_ ?].
  - intros Hnone. rewrite dict_lookup_None; [done|].
    intros v (j & Hj)%list_elem_of_lookup.
    destruct (Forall2_lookup_r _ _ _ _ _ Hpairs Hj) as (p & Hp & Hpv).
    apply param_pair_Ok in Hpv.
    apply list_elem_of_lookup_2 in Hp.
    apply list_elem_of_filter in Hp as [? ?]. by apply (Hnone p v).
Qed.

Lemma rearranged_types_assignment_witness :
  get_signature "add" ["Tensor self"; "*"; "Tensor other"] ["self"; "other"; "1"]
  = Ok "add(Tensor, Tensor, Scalar)" ∧
  ["Tensor"; "Tensor"; "Scalar"] !! 1 = Some "Tensor" ∧
  ["Tensor"; "Tensor"; "Scalar"] !! 2 = Some "Scalar".
Proof.
  destruct (rearranged_types_assignment "add"
              ["Tensor self"; "*"; "Tensor other"] ["self"; "other"; "1"]
              ["Tensor"; "Tensor"; "Scalar"] eq_refl)
    as (Hsig & _ & Hargs).
  split; [exact Hsig|]. split.
  - destruct (Hargs 1 "other" eq_refl) as [Hnamed _].
    apply (Hnamed ["Tensor self"; "*"] "Tensor other" [] "Tensor");
      [reflexivity|discriminate|reflexivity|].
    intros p t Hp. by apply elem_of_nil in Hp.
  - destruct (Hargs 2 "1" eq_refl) as [_ Hliteral].
    apply Hliteral. intros p t Hp Hstar Hsplit.
    repeat (apply elem_of_cons in Hp as [->|Hp]; [by vm_compute in Hsplit|]).
    by apply elem_of_nil in Hp.
Defined.

(** ** [load_deprecated_signatures] *)

Section resolver_facts.

Variable split_name_params : string → Result (string * list string).

Lemma resolve_deprecated_Ok (d d1 : gmap string (list Declaration))
    (deprecated : DeprecatedDef) (resolved : list Declaration) :
  resolve_deprecated split_name_params d deprecated = Ok (resolved, d1) →
  same_reads d1 d.
Proof.
  unfold resolve_deprecated.
  intros ([aten_name call_args] & _ & H)%bind_Ok_inv.
  apply bind_Ok_inv in H as ([name params] & _ & H).
  apply bind_Ok_inv in H as (signature & _ & H).
  pose proof (defaultdict_getitem_snd d signature) as Hsnd.
  destruct (defaultdict_getitem d signature) as [bucket d'].
  apply bind_Ok_inv in H as (? & _ & [= _ <-]). exact Hsnd.
Qed.

(** What an entry resolves to depends on what the dict reads as. *)
Lemma resolve_deprecated_ext (d d' : gmap string (list Declaration))
    (deprecated : DeprecatedDef) :
  same_reads d d' →
  match resolve_deprecated split_name_params d deprecated,
        resolve_deprecated split_name_params d' deprecated with
  | Ok (resolved, d1), Ok (resolved', d1') =>
      resolved = resolved' ∧ same_reads d1 d1'
  | Raise e, Raise e' => e = e'
  | _, _ => False
  end.
Proof.
  intros Hreads. unfold resolve_deprecated.
  destruct (split_name_params (dep_aten deprecated))
    as [[aten_name call_args]|]; [|done]; cbn.
  destruct (split_name_params (dep_name deprecated))
    as [[name params]|]; [|done]; cbn.
  destruct (get_signature aten_name params call_args)
    as [signature|]; [|done]; cbn.
  pose proof (defaultdict_getitem_fst d signature) as Hfst.
  pose proof (defaultdict_getitem_snd d signature) as Hsnd.
  pose proof (defaultdict_getitem_fst d' signature) as Hfst'.
  pose proof (defaultdict_getitem_snd d' signature) as Hsnd'.
  destruct (defaultdict_getitem d signature) as [bucket d1].
  destruct (defaultdict_getitem d' signature) as [bucket' d1'].
  cbn in Hfst, Hsnd, Hfst', Hsnd'.
  assert (bucket = bucket') as <- by (by rewrite Hfst, Hfst', Hreads).
  destruct (mapM _ bucket); cbn; [|done].
  split; [done|]. intros key. by rewrite Hsnd, Hsnd', Hreads.
Qed.

Lemma resolve_loop_ext (deprecated_defs : list DeprecatedDef)
    (d d' : gmap string (list Declaration)) :
  same_reads d d' →
  resolve_loop split_name_params deprecated_defs d
  = resolve_loop split_name_params deprecated_defs d'.
Proof.
  revert d d'. induction deprecated_defs as [|x rest IH]; intros d d' Hreads;
    [done|].
  cbn [resolve_loop].
  pose proof (resolve_deprecated_ext d d' x Hreads) as Hx.
  destruct (resolve_deprecated split_name_params d x) as [[r d1]|e],
           (resolve_deprecated split_name_params d' x) as [[r' d1']|e'];
    try done; cbn.
  - destruct Hx as [<- Hreads1]. by rewrite (IH d1 d1' Hreads1).
  - by subst.
Qed.

Lemma bind_Ok_id {A} (m : Result A) : (x ← m; Ok x) = m.
Proof. by destruct m. Qed.

(** An entry whose bucket is empty resolves to nothing. *)
Lemma resolve_deprecated_unmatched (deprecated : DeprecatedDef)
    (d : gmap string (list Declaration))
    (aten_name name signature : string) (call_args params : list string) :
  split_name_params (dep_aten deprecated) = Ok (aten_name, call_args) →
  split_name_params (dep_name deprecated) = Ok (name, params) →
  get_signature aten_name params call_args = Ok signature →
  default [] (d !! signature) = [] →
  ∃ d1, resolve_deprecated split_name_params d deprecated = Ok ([], d1).
Proof.
  intros Haten Hname Hsig Hempty. unfold resolve_deprecated.
  rewrite Haten. cbn. rewrite Hname. cbn. rewrite Hsig. cbn.
  pose proof (defaultdict_getitem_fst d signature) as Hfst.
  destruct (defaultdict_getitem d signature) as [bucket d1].
  cbn in Hfst. rewrite Hfst, Hempty. cbn. eauto.
Qed.

(** It adds nothing and lets the loop go on. *)
Lemma resolve_loop_unmatched (before after : list DeprecatedDef)
    (deprecated : DeprecatedDef) (d : gmap string (list Declaration))
    (aten_name name signature : string) (call_args params : list string) :
  split_name_params (dep_aten deprecated) = Ok (aten_name, call_args) →
  split_name_params (dep_name deprecated) = Ok (name, params) →
  get_signature aten_name params call_args = Ok signature →
  default [] (d !! signature) = [] →
  resolve_loop split_name_params (before ++ deprecated :: after) d
  = resolve_loop split_name_params (before ++ after) d.
Proof.
  intros Haten Hname Hsig. revert d.
  induction before as [|x before IH]; intros d Hempty.
  - cbn [app resolve_loop]. unfold resolve_deprecated.
    rewrite Haten. cbn. rewrite Hname. cbn. rewrite Hsig. cbn.
    pose proof (defaultdict_getitem_fst d signature) as Hfst.
    pose proof (defaultdict_getitem_snd d signature) as Hsnd.
    destruct (defaultdict_getitem d signature) as [bucket d1].
    cbn in Hfst, Hsnd. rewrite Hfst, Hempty. cbn.
    rewrite (resolve_loop_ext after d1 d Hsnd).
    apply bind_Ok_id.
  - cbn [app resolve_loop].
    destruct (resolve_deprecated split_name_params d x) as [[r d1]|e] eqn:Hx;
      [|done].
    cbn. apply resolve_deprecated_Ok in Hx.
    rewrite IH; [done|]. by rewrite Hx.
Qed.

(** C5: a deprecated entry whose signature is that of no canonical
    declaration adds no entry to the result, and raises nothing: its turn
    of the loop ends with an empty list, and the run gives what it gives
    without that entry. *)
Theorem unmatched_deprecated_is_dropped
    (aten_decls : list Declaration) (before after : list DeprecatedDef)
    (deprecated : DeprecatedDef)
    (aten_name name signature : string) (call_args params : list string) :
  split_name_params (dep_aten deprecated) = Ok (aten_name, call_args) →
  split_name_params (dep_name deprecated) = Ok (name, params) →
  get_signature aten_name params call_args = Ok signature →
  (∀ declaration, declaration ∈ aten_decls →
     declaration_signature declaration ≠ Ok signature) →
  (∀ d d', group_declarations_by_signature aten_decls = Ok d →
     same_reads d' d →
     ∃ d1, resolve_deprecated split_name_params d' deprecated = Ok ([], d1)) ∧
  load_deprecated_signatures split_name_params aten_decls
    (before ++ deprecated :: after)
  = load_deprecated_signatures split_name_params aten_decls
      (before ++ after).
Proof.
  intros Haten Hname Hsig Hnone.
  assert (∀ d, group_declarations_by_signature aten_decls = Ok d →
               default [] (d !! signature) = []) as Hempty.
  { intros d [_ Hd]%group_declarations_by_signature_lookup.
    rewrite Hd. clear -Hnone.
    induction aten_decls as [|x l IH]; [done|].
    rewrite filter_cons_False by (apply Hnone; by left).
    apply IH. intros declaration ?. apply Hnone. by right. }
  split.
  - intros d d' Hgroup Hreads.
    eapply resolve_deprecated_unmatched; [done..|].
    rewrite Hreads. by apply Hempty.
  - unfold load_deprecated_signatures.
    destruct (group_declarations_by_signature aten_decls) as [d|e] eqn:Hgroup;
      [|done].
    cbn. eapply resolve_loop_unmatched; [done..|]. by apply Hempty.
Qed.

End resolver_facts.

Lemma unmatched_deprecated_is_dropped_witness :
  load_deprecated_signatures split_name_params [(enrich add_Tensor).1]
    ([deprecated_add] ++ deprecated_sub :: [deprecated_add])
  = load_deprecated_signatures split_name_params [(enrich add_Tensor).1]
      ([deprecated_add] ++ [deprecated_add]).
Proof.
  apply (unmatched_deprecated_is_dropped split_name_params _ _ _ _
           "sub" "sub" "sub(Tensor, Tensor, Scalar)"
           ["self"; "other"; "alpha"]
           ["Tensor self"; "Scalar alpha"; "Tensor other"]);
    [reflexivity..|].
  intros declaration [->|Hin]%elem_of_cons; [by vm_compute|].
  by apply elem_of_nil in Hin.
Defined.

Example unmatched_deprecated_ex :
  ∃ resolved,
    load_deprecated_signatures split_name_params [(enrich add_Tensor).1]
      [deprecated_sub; deprecated_add] = Ok [resolved] ∧
    decl_deprecated resolved = Some true.
Proof. eexists. split; reflexivity. Qed.

(** ** A legacy parameter that the call does not pass on *)

Lemma dict_foldl_Some_inv {V} (pairs : list (string * V)) (m : gmap string V)
    (k : string) (v : V) :
  foldl (λ m kv, <[kv.1 := kv.2]> m) m pairs !! k = Some v →
  (k, v) ∈ pairs ∨ m !! k = Some v.
Proof.
  revert m. induction pairs as [|[k' v'] pairs IH]; intros m; [by right|].
  cbn [foldl]. intros [Hin|Hm]%IH; [left; by right|]. cbn in Hm.
  destruct (decide (k' = k)) as [->|Hne].
  - rewrite lookup_insert_eq in Hm. injection Hm as ->. left. by left.
  - rewrite lookup_insert_ne in Hm by done. by right.
Qed.

Lemma dict_foldl_is_Some {V} (pairs : list (string * V)) (m : gmap string V)
    (k : string) :
  is_Some (m !! k) ∨ (∃ v, (k, v) ∈ pairs) →
  is_Some (foldl (λ m kv, <[kv.1 := kv.2]> m) m pairs !! k).
Proof.
  revert m. induction pairs as [|[k' v'] pairs IH]; intros m.
  - intros [?|[v Hin]]; [done|]. by apply elem_of_nil in Hin.
  - intros H. cbn [foldl]. apply IH. cbn.
    destruct (decide (k' = k)) as [->|Hne].
    + left. rewrite lookup_insert_eq. eauto.
    + destruct H as [?|[v [[= ? ?]|Hin]%elem_of_cons]];
        [left; by rewrite lookup_insert_ne|done|right; eauto].
Qed.

(** Under a call argument, [call_arg_to_idx] holds a position at which it
    stands; under any other name it holds nothing. *)
Lemma call_arg_to_idx_Some (call_args : list string) (arg : string) (i : nat) :
  call_arg_to_idx call_args !! arg = Some i → call_args !! i = Some arg.
Proof.
  unfold call_arg_to_idx, dict.
  intros [Hin|Hempty]%dict_foldl_Some_inv; [|done].
  apply elem_of_lookup_imap in Hin as (j & y & [= -> ->] & Hj). done.
Qed.

Lemma call_arg_to_idx_elem (call_args : list string) (arg : string) :
  arg ∈ call_args → is_Some (call_arg_to_idx call_args !! arg).
Proof.
  intros (i & Hi)%list_elem_of_lookup. apply dict_foldl_is_Some. right.
  exists i. apply elem_of_lookup_imap. eauto.
Qed.

Lemma call_arg_to_idx_None (call_args : list string) (arg : string) :
  arg ∉ call_args → call_arg_to_idx call_args !! arg = None.
Proof.
  intros Hnot. destruct (call_arg_to_idx call_args !! arg) as [i|] eqn:E;
    [|done].
  apply call_arg_to_idx_Some, list_elem_of_lookup_2 in E. done.
Qed.

(** When [get_signature] returns, every parameter has split in two. *)
Lemma get_signature_params (name signature : string)
    (params call_args : list string) :
  get_signature name params call_args = Ok signature →
  ∀ p, p ∈ params → p ≠ "*" → ∃ t n, Py.split " " p = [t; n].
Proof.
  unfold get_signature, rearranged_types.
  intros (? & (pairs & Hpairs%mapM_Ok & _)%bind_Ok_inv & _)%bind_Ok_inv p Hp Hstar.
  assert (p ∈ filter (λ param, param ≠ "*") params) as (j & Hj)%list_elem_of_lookup
    by by apply list_elem_of_filter.
  destruct (Forall2_lookup_l _ _ _ _ _ Hpairs Hj) as (kv & _ & Hkv).
  apply param_pair_Ok in Hkv. eauto.
Qed.

(** The loop over the parameters cannot get past a parameter whose name is
    not a call argument. *)
Lemma deprecated_arguments_absent (before after : list string)
    (param param_type param_name : string) (kwarg_only : bool)
    (idx : gmap string nat) (original_args : list Argument) :
  param ≠ "*" → Py.split " " param = [param_type; param_name] →
  idx !! param_name = None →
  ∃ e, deprecated_arguments (before ++ param :: after) kwarg_only idx
         original_args = Raise e.
Proof.
  intros Hstar Hsplit%split_param_Ok Hidx. revert kwarg_only.
  induction before as [|p before IH]; intros kwarg_only; cbn [app deprecated_arguments].
  - rewrite decide_False by done. rewrite Hsplit. cbn. rewrite Hidx. cbn. eauto.
  - case_decide; [apply IH|].
    destruct (split_param p) as [[t n]|]; cbn; [|eauto].
    destruct (getitem n (idx !! n)) as [i|]; cbn; [|eauto].
    destruct (getindex original_args i) as [original|]; cbn; [|eauto].
    destruct (getitem "simple_type" _); cbn; [|eauto].
    destruct (IH kwarg_only) as [e ->]. cbn. eauto.
Qed.

(** It stops there with the [KeyError] of that name when the parameters
    before it went through. *)
Lemma deprecated_arguments_KeyError (before after : list string)
    (param param_type param_name : string) (kwarg_only : bool)
    (idx : gmap string nat) (original_args : list Argument) :
  param ≠ "*" → Py.split " " param = [param_type; param_name] →
  idx !! param_name = None →
  (∀ p, p ∈ before → p ≠ "*" →
     ∃ t n i original, Py.split " " p = [t; n] ∧ idx !! n = Some i ∧
       original_args !! i = Some original ∧
       is_Some (arg_simple_type original)) →
  deprecated_arguments (before ++ param :: after) kwarg_only idx original_args
  = Raise (KeyError param_name).
Proof.
  intros Hstar Hsplit%split_param_Ok Hidx. revert kwarg_only.
  induction before as [|p before IH]; intros kwarg_only Hbefore;
    cbn [app deprecated_arguments].
  - rewrite decide_False by done. rewrite Hsplit. cbn. by rewrite Hidx.
  - assert (∀ kw, deprecated_arguments (before ++ param :: after) kw idx
                    original_args = Raise (KeyError param_name)) as Hrest.
    { intros kw. apply IH. intros p' Hp'. apply Hbefore. by right. }
    case_decide; [apply Hrest|].
    destruct (Hbefore p) as (t & n & i & original & Hp%split_param_Ok
                             & Hn & Hi & [s Hs]); [by left|done|].
    rewrite Hp. cbn. rewrite Hn. cbn. unfold getindex. rewrite Hi. cbn.
    rewrite Hs. cbn. by rewrite Hrest.
Qed.

(** Every rearranged type is the type of a legacy parameter, or "Scalar". *)
Lemma rearranged_types_elem (params call_args rearranged : list string)
    (t : string) :
  rearranged_types params call_args = Ok rearranged →
  t ∈ rearranged →
  t = "Scalar" ∨ ∃ p n, p ∈ params ∧ Py.split " " p = [t; n].
Proof.
  unfold rearranged_types.
  intros (pairs & Hpairs%mapM_Ok & [= <-])%bind_Ok_inv
         (i & Hi)%list_elem_of_lookup.
  rewrite lookup_map in Hi.
  destruct (call_args !! i) as [arg|]; [|done]. cbn in Hi. injection Hi as <-.
  destruct (dict pairs !! arg) as [v|] eqn:Hv; [|by left]. right. cbn.
  apply dict_foldl_Some_inv in Hv as [(j & Hj)%list_elem_of_lookup|Hv]; [|done].
  destruct (Forall2_lookup_r _ _ _ _ _ Hpairs Hj) as (p & Hp & Hpv).
  apply param_pair_Ok in Hpv. exists p, arg. split; [|done].
  apply list_elem_of_lookup_2 in Hp. by apply list_elem_of_filter in Hp as [_ ?].
Qed.

(** A declaration whose signature text is that of the call has as many
    arguments as the call, when the texts can be read back. *)
Lemma matched_declaration_length (aten_name signature : string)
    (params call_args : list string) (x : Declaration) :
  get_signature aten_name params call_args = Ok signature →
  declaration_signature x = Ok signature →
  Py.occurs "(" aten_name = false →
  (∀ p t n, p ∈ params → Py.split " " p = [t; n] → plain_type t) →
  plain_signature x →
  length (decl_arguments x) = length call_args.
Proof.
  unfold get_signature.
  intros (rearranged & Hrt & [= <-])%bind_Ok_inv
         (types & Htypes & Heq)%declaration_signature_Ok Hparen Hlegacy Hplain.
  apply SignatureText.signature_text_inj in Heq as [_ <-].
  - apply (f_equal length) in Htypes. unfold simple_types in Htypes.
    rewrite !length_map in Htypes. rewrite Htypes.
    unfold rearranged_types in Hrt.
    apply bind_Ok_inv in Hrt as (pairs & _ & [= <-]). by rewrite length_map.
  - done.
  - apply Hplain.
  - apply Forall_forall. intros t Ht.
    destruct (rearranged_types_elem _ _ _ _ Hrt Ht) as [->|(p & n & Hp & Hsplit)].
    + by split.
    + by apply (Hlegacy p t n).
  - by apply (plain_signature_types x).
Qed.

Lemma deprecated_declaration_Raise (params call_args : list string)
    (declaration : Declaration) (e : exn) :
  deprecated_arguments params false (call_arg_to_idx call_args)
    (decl_arguments declaration) = Raise e →
  deprecated_declaration params call_args declaration = Raise e.
Proof. unfold deprecated_declaration. by intros ->. Qed.

Example deprecated_f_IndexError :
  load_deprecated_signatures split_name_params [(enrich f_one_argument).1]
    [deprecated_f] = Raise IndexError.
Proof. reflexivity. Qed.

(** C9, as stated, fails: the fault can be the [IndexError] of
    [original_args[...]].  The declaration of [f] with one argument of type
    "A, B" matches the call [f(x, y)] of the legacy form [f(A x, B y, C z)];
    the parameter [y] stands at position 1 of the call, the declaration has
    no argument there, and the loop stops before it comes to [z]. *)
Lemma absent_parameter_not_always_KeyError :
  ¬ (∀ (parse : string → Result (string * list string))
       (h : Heap) (aten_decls : list Declaration) (deprecated : DeprecatedDef)
       (aten_name name signature : string) (call_args params : list string)
       (declaration : Declaration) (param param_type param_name : string),
       loaded_declarations h = Ok aten_decls →
       parse (dep_aten deprecated) = Ok (aten_name, call_args) →
       parse (dep_name deprecated) = Ok (name, params) →
       get_signature aten_name params call_args = Ok signature →
       declaration ∈ aten_decls →
       declaration_signature declaration = Ok signature →
       param ∈ params → param ≠ "*" →
       Py.split " " param = [param_type; param_name] →
       param_name ∉ call_args →
       ∃ key, load_deprecated_signatures parse aten_decls [deprecated]
              = Raise (KeyError key)).
Proof.
  intros H.
  destruct (H split_name_params
              [f_one_argument] [(enrich f_one_argument).1] deprecated_f
              "f" "f" "f(A, B)" ["x"; "y"] ["A x"; "B y"; "C z"]
              (enrich f_one_argument).1 "C z" "C" "z")
    as [key Hkey]; try reflexivity.
  - by left.
  - do 2 right. by left.
  - discriminate.
  - intros [[=]|[[=]|Hin%elem_of_nil]%elem_of_cons]%elem_of_cons. done.
  - rewrite deprecated_f_IndexError in Hkey. discriminate Hkey.
Qed.

Section absent_parameter.

Variable split_name_params : string → Result (string * list string).

(** The fault, and when it is the [KeyError]. *)
Lemma absent_parameter_faults
    (aten_decls : list Declaration) (d : gmap string (list Declaration))
    (deprecated : DeprecatedDef) (rest : list DeprecatedDef)
    (aten_name name signature : string) (call_args params : list string)
    (declaration : Declaration)
    (before after : list string) (param param_type param_name : string) :
  group_declarations_by_signature aten_decls = Ok d →
  split_name_params (dep_aten deprecated) = Ok (aten_name, call_args) →
  split_name_params (dep_name deprecated) = Ok (name, params) →
  get_signature aten_name params call_args = Ok signature →
  declaration ∈ aten_decls →
  declaration_signature declaration = Ok signature →
  params = before ++ param :: after → param ≠ "*" →
  Py.split " " param = [param_type; param_name] →
  param_name ∉ call_args →
  (∃ e, load_deprecated_signatures split_name_params aten_decls
          (deprecated :: rest) = Raise e) ∧
  ((∀ p t n, p ∈ before → Py.split " " p = [t; n] → n ∈ call_args) →
   (∀ x, x ∈ aten_decls → declaration_signature x = Ok signature →
      length call_args ≤ length (decl_arguments x)) →
   load_deprecated_signatures split_name_params aten_decls
     (deprecated :: rest) = Raise (KeyError param_name)).
Proof.
  intros Hgroup Haten Hname Hsig Hin Hmatch -> Hstar Hsplit Habsent.
  apply call_arg_to_idx_None in Habsent.
  unfold load_deprecated_signatures. rewrite Hgroup. cbn.
  unfold resolve_deprecated.
  rewrite Haten. cbn. rewrite Hname. cbn. rewrite Hsig. cbn.
  apply group_declarations_by_signature_lookup in Hgroup as [Hall Hd].
  pose proof (defaultdict_getitem_fst d signature) as Hfst.
  destruct (defaultdict_getitem d signature) as [bucket d1]. cbn in Hfst.
  rewrite Hd in Hfst.
  assert (declaration ∈ bucket) as Hbucket
    by (rewrite Hfst; by apply list_elem_of_filter).
  destruct bucket as [|x bucket]; [by apply elem_of_nil in Hbucket|].
  assert (x ∈ aten_decls ∧ declaration_signature x = Ok signature)
    as [Hx Hxsig].
  { assert (x ∈ x :: bucket) as Hhead by by left.
    rewrite Hfst in Hhead. by apply list_elem_of_filter in Hhead as [? ?]. }
  rewrite mapM_cons. split.
  - destruct (deprecated_arguments_absent before after param param_type
                param_name false (call_arg_to_idx call_args)
                (decl_arguments x) Hstar Hsplit Habsent) as [e He].
    rewrite (deprecated_declaration_Raise _ _ _ _ He). cbn. eauto.
  - intros Hbefore Hlen.
    rewrite (deprecated_declaration_Raise _ _ _ (KeyError param_name));
      [done|].
    apply (deprecated_arguments_KeyError before after param param_type
             param_name); [done..|].
    intros p Hp Hpstar.
    destruct (get_signature_params _ _ _ _ Hsig p) as (t & n & Hpsplit);
      [apply elem_of_app; by left|done|].
    destruct (call_arg_to_idx_elem call_args n) as [i Hi]; [by eapply Hbefore|].
    pose proof (call_arg_to_idx_Some _ _ _ Hi) as Hcall%lookup_lt_Some.
    specialize (Hlen x Hx Hxsig).
    destruct (lookup_lt_is_Some_2 (decl_arguments x) i) as [original Ho]; [lia|].
    exists t, n, i, original. split_and!; [done..|].
    apply declaration_signature_Ok in Hxsig as (types & Htypes & _).
    unfold simple_types in Htypes.
    apply (f_equal (λ l, l !! i)) in Htypes.
    rewrite !lookup_map, Ho in Htypes. cbn in Htypes.
    destruct (types !! i); simplify_eq/=. eauto.
Qed.

(** C9, amended: when the signature of a deprecated entry is that of a
    canonical declaration and one of its legacy parameters is not among
    its call arguments, the run raises; the entry is neither skipped nor
    resolved.  What it raises is the [KeyError] of [call_arg_to_idx] for
    that parameter's name when the parameters before it are call
    arguments and the matched declarations have an argument at every
    position of the call; a matched declaration with fewer arguments can
    raise the [IndexError] of [original_args[...]] before that.  The
    matched declarations do have as many arguments as the call when the
    signature texts can be read back: no parenthesis in the names, no type
    that is empty or holds ", ". *)
Theorem absent_parameter_raises
    (aten_decls : list Declaration) (d : gmap string (list Declaration))
    (deprecated : DeprecatedDef) (rest : list DeprecatedDef)
    (aten_name name signature : string) (call_args params : list string)
    (declaration : Declaration)
    (before after : list string) (param param_type param_name : string) :
  group_declarations_by_signature aten_decls = Ok d →
  split_name_params (dep_aten deprecated) = Ok (aten_name, call_args) →
  split_name_params (dep_name deprecated) = Ok (name, params) →
  get_signature aten_name params call_args = Ok signature →
  declaration ∈ aten_decls →
  declaration_signature declaration = Ok signature →
  params = before ++ param :: after → param ≠ "*" →
  Py.split " " param = [param_type; param_name] →
  param_name ∉ call_args →
  (∃ e, load_deprecated_signatures split_name_params aten_decls
          (deprecated :: rest) = Raise e) ∧
  ((∀ p t n, p ∈ before → Py.split " " p = [t; n] → n ∈ call_args) →
   (∀ x, x ∈ aten_decls → declaration_signature x = Ok signature →
      length call_args ≤ length (decl_arguments x)) →
   load_deprecated_signatures split_name_params aten_decls
     (deprecated :: rest) = Raise (KeyError param_name)) ∧
  ((∀ p t n, p ∈ before → Py.split " " p = [t; n] → n ∈ call_args) →
   Py.occurs "(" aten_name = false →
   (∀ p t n, p ∈ params → Py.split " " p = [t; n] → plain_type t) →
   (∀ x, x ∈ aten_decls → plain_signature x) →
   load_deprecated_signatures split_name_params aten_decls
     (deprecated :: rest) = Raise (KeyError param_name)).
Proof.
  intros Hgroup Haten Hname Hsig Hin Hmatch Hparams Hstar Hsplit Habsent.
  destruct (absent_parameter_faults aten_decls d deprecated rest
              aten_name name signature call_args params declaration
              before after param param_type param_name)
    as [Hraise Hkey]; [done..|].
  split_and!; [done..|].
  intros Hbefore Hparen Htypes Hplain. apply Hkey; [done|].
  intros x Hx Hxsig.
  by rewrite (matched_declaration_length aten_name signature params
                call_args x Hsig Hxsig Hparen Htypes (Hplain x Hx)).
Qed.

End absent_parameter.

Lemma absent_parameter_raises_witness :
  load_deprecated_signatures split_name_params [(enrich add_Tensor).1]
    [deprecated_add_out] = Raise (KeyError "out").
Proof.
  destruct (group_declarations_by_signature [(enrich add_Tensor).1])
    as [d|] eqn:Hgroup; [|by vm_compute in Hgroup].
  assert ((enrich add_Tensor).1 ∈ [(enrich add_Tensor).1]) as Hin by by left.
  assert ("Tensor out" ≠ "*") as Hstar by discriminate.
  assert ("out" ∉ ["self"; "other"; "alpha"]) as Habsent.
  { intros H. repeat (apply elem_of_cons in H as [[=]|H]).
    by apply elem_of_nil in H. }
  destruct (absent_parameter_raises split_name_params
              [(enrich add_Tensor).1] d deprecated_add_out []
              "add" "add" "add(Tensor, Tensor, Scalar)"
              ["self"; "other"; "alpha"]
              ["Tensor self"; "Scalar alpha"; "Tensor other"; "Tensor out"]
              (enrich add_Tensor).1
              ["Tensor self"; "Scalar alpha"; "Tensor other"] []
              "Tensor out" "Tensor" "out"
              Hgroup eq_refl eq_refl eq_refl Hin eq_refl eq_refl Hstar eq_refl
              Habsent) as (_ & Hkey & _).
  apply Hkey.
  - intros p t n Hp Hsplit.
    repeat (apply elem_of_cons in Hp as [->|Hp];
            [vm_compute in Hsplit; injection Hsplit as _ <-;
             repeat ((by left) || right)|]).
    by apply elem_of_nil in Hp.
  - intros x [->|Hx]%elem_of_cons _; [vm_compute; lia|].
    by apply elem_of_nil in Hx.
Defined.

(** ** The legacy form of [add] *)

Section deprecated_add.

Variable split_name_params : string → Result (string * list string).

(** C1: against the canonical [add(Tensor self, Tensor other, Scalar
    alpha)], the legacy form [add(Tensor self, Scalar alpha, Tensor other)]
    with the call [add(self, other, alpha)] resolves to one declaration,
    a copy of the canonical one flagged as deprecated and carrying the call
    arguments.  Its arguments are in the legacy order [self, alpha,
    other]; each has its name and keyword-only flag from the legacy list
    and its type, simple type, dynamic type and output flag from the
    canonical argument at the position of its name in the call, which
    here is the canonical argument of the same name: [alpha] has the
    canonical type of [alpha]. *)
Theorem deprecated_add_resolution (declaration : Declaration)
    (self other alpha : Argument) :
  split_name_params "add(self, other, alpha)"
  = Ok ("add", ["self"; "other"; "alpha"]) →
  split_name_params "add(Tensor self, Scalar alpha, Tensor other)"
  = Ok ("add", ["Tensor self"; "Scalar alpha"; "Tensor other"]) →
  decl_name declaration = "add" → decl_inplace declaration = false →
  decl_arguments declaration = [self; other; alpha] →
  arg_name self = "self" → arg_simple_type self = Some "Tensor" →
  arg_name other = "other" → arg_simple_type other = Some "Tensor" →
  arg_name alpha = "alpha" → arg_simple_type alpha = Some "Scalar" →
  ∃ resolved,
    load_deprecated_signatures split_name_params [declaration]
      [deprecated_add] = Ok [resolved] ∧
    decl_arguments resolved
    = [legacy_argument "self" false self;
       legacy_argument "alpha" false alpha;
       legacy_argument "other" false other] ∧
    map arg_name (decl_arguments resolved) = ["self"; "alpha"; "other"] ∧
    Forall (λ argument,
              ∃ original, original ∈ decl_arguments declaration ∧
                arg_name original = arg_name argument ∧
                arg_type argument = arg_type original ∧
                arg_simple_type argument = arg_simple_type original ∧
                arg_dynamic_type argument = arg_dynamic_type original ∧
                arg_output argument
                = Some (default false (arg_output original)) ∧
                arg_kwarg_only argument = Some false)
           (decl_arguments resolved) ∧
    decl_deprecated resolved = Some true ∧
    decl_call_args resolved = Some ["self"; "other"; "alpha"] ∧
    decl_name resolved = "add" ∧
    decl_schema_order_arguments resolved
    = decl_schema_order_arguments declaration ∧
    decl_returns resolved = decl_returns declaration.
Proof.
  intros Haten Hname Hdname Hinplace Hargs
    Hnself Hself Hnother Hother Hnalpha Halpha.
  assert (declaration_signature declaration
          = Ok "add(Tensor, Tensor, Scalar)") as Hsig.
  { apply declaration_signature_Ok. exists ["Tensor"; "Tensor"; "Scalar"].
    unfold simple_types, signature_base_name.
    rewrite Hargs, Hdname, Hinplace. cbn. by rewrite Hself, Hother, Halpha. }
  assert (deprecated_arguments
            ["Tensor self"; "Scalar alpha"; "Tensor other"] false
            (call_arg_to_idx ["self"; "other"; "alpha"])
            (decl_arguments declaration)
          = Ok [legacy_argument "self" false self;
                legacy_argument "alpha" false alpha;
                legacy_argument "other" false other]) as Harguments.
  { rewrite Hargs. clear -Hself Hother Halpha.
    destruct self, other, alpha. cbn in Hself, Hother, Halpha. subst.
    reflexivity. }
  assert (get_signature "add"
            ["Tensor self"; "Scalar alpha"; "Tensor other"]
            ["self"; "other"; "alpha"]
          = Ok "add(Tensor, Tensor, Scalar)") as Hlegacy by reflexivity.
  unfold load_deprecated_signatures.
  destruct (group_declarations_by_signature [declaration]) as [d|e] eqn:Hgroup;
    cycle 1.
  { unfold group_declarations_by_signature in Hgroup.
    cbn [group_loop] in Hgroup. rewrite Hsig in Hgroup. cbn in Hgroup.
    by destruct (defaultdict_getitem _ _). }
  apply group_declarations_by_signature_lookup in Hgroup as [_ Hd].
  specialize (Hd "add(Tensor, Tensor, Scalar)").
  rewrite filter_cons_True, filter_nil in Hd by done.
  cbn [mbind Result_bind resolve_loop]. unfold resolve_deprecated.
  cbn [dep_aten dep_name deprecated_add]. rewrite Haten, Hname.
  cbn [mbind Result_bind]. rewrite Hlegacy. cbn [mbind Result_bind].
  pose proof (defaultdict_getitem_fst d "add(Tensor, Tensor, Scalar)") as Hfst.
  destruct (defaultdict_getitem d _) as [bucket d1]. cbn [fst] in Hfst.
  rewrite Hd in Hfst. subst bucket.
  cbn [mapM]. unfold deprecated_declaration. rewrite Harguments.
  eexists. split; [reflexivity|].
  cbn [decl_arguments decl_deprecated decl_call_args decl_name
       decl_schema_order_arguments decl_returns].
  split_and!; try done.
  rewrite Hargs. repeat constructor.
  - exists self. split_and!; try done. by left.
  - exists alpha. split_and!; try done. do 2 right. by left.
  - exists other. split_and!; try done. right. by left.
Qed.

End deprecated_add.

Lemma deprecated_add_resolution_witness :
  ∃ resolved,
    load_deprecated_signatures split_name_params [(enrich add_Tensor).1]
      [deprecated_add] = Ok [resolved] ∧
    map arg_name (decl_arguments resolved) = ["self"; "alpha"; "other"] ∧
    map arg_type (decl_arguments resolved)
    = ["const Tensor &"; "Scalar"; "const Tensor &"] ∧
    map arg_simple_type (decl_arguments resolved)
    = [Some "Tensor"; Some "Scalar"; Some "Tensor"].
Proof.
  destruct (deprecated_add_resolution split_name_params
              (enrich add_Tensor).1
              (set_arg_simple_type (tensor_arg "self"))
              (set_arg_simple_type (tensor_arg "other"))
              (set_arg_simple_type (scalar_arg "alpha"))
              eq_refl eq_refl eq_refl eq_refl eq_refl
              eq_refl eq_refl eq_refl eq_refl eq_refl eq_refl)
    as (resolved & Hresolved & Harguments & _).
  exists resolved. rewrite Harguments.
  split; [exact Hresolved|]. split_and!; reflexivity.
Defined.

(** * Further properties *)

(** ** Splitting *)

Lemma startswith_cons_sep (a c : ascii) (sep' s : string) :
  Py.startswith (String c s) (String a sep') = true →
  c = a ∧ ∃ rest, s = sep' +:+ rest.
Proof.
  intros [rest Hrest]%PyFacts.startswith_true.
  rewrite PyFacts.app_cons in Hrest. injection Hrest as -> ->. eauto.
Qed.

Lemma startswith_app (s t sep : string) :
  Py.startswith s sep = true → Py.startswith (s +:+ t) sep = true.
Proof.
  intros [rest ->]%PyFacts.startswith_true. apply PyFacts.startswith_true.
  exists (rest +:+ t). by rewrite PyFacts.app_assoc.
Qed.

(** Inside an occurrence of the separator nothing is emitted. *)
Lemma split_go_skip (sep t rest : string) :
  Py.split_go sep (String.length t) (t +:+ rest) = Py.split_go sep 0 rest.
Proof.
  induction t as [|c t IH]; [done|]. rewrite PyFacts.app_cons. apply IH.
Qed.

Lemma split_match (sep rest : string) :
  sep ≠ "" → Py.split sep (sep +:+ rest) = "" :: Py.split sep rest.
Proof.
  destruct sep as [|a sep']; [done|]. intros _. unfold Py.split.
  rewrite PyFacts.app_cons. cbn [Py.split_go].
  assert (Py.startswith (String a (sep' +:+ rest)) (String a sep') = true)
    as -> by (apply PyFacts.startswith_true; eauto).
  f_equal.
  assert (String.length (String a sep') - 1 = String.length sep') as ->
    by (cbn; lia).
  apply split_go_skip.
Qed.

Lemma split_nomatch (sep : string) (c : ascii) (s : string) :
  Py.startswith (String c s) sep = false →
  Py.split sep (String c s)
  = match Py.split sep s with
    | piece :: pieces => String c piece :: pieces
    | [] => [String c ""]
    end.
Proof. intros H. unfold Py.split. cbn [Py.split_go]. by rewrite H. Qed.

(** The first piece of a split runs up to the first occurrence of the
    separator, and the other pieces are the split of what follows it. *)
Lemma split_head (sep s : string) :
  sep ≠ "" →
  ∃ piece pieces, Py.split sep s = piece :: pieces ∧
    Py.occurs sep piece = false ∧
    ((pieces = [] ∧ s = piece) ∨
     (∃ rest, s = piece +:+ sep +:+ rest ∧ pieces = Py.split sep rest)).
Proof.
  intros Hsep. induction s as [|c s IH].
  - exists "", []. split_and!; [done| |by left].
    destruct sep; [done|reflexivity].
  - destruct (Py.startswith (String c s) sep) eqn:Hstart.
    + apply PyFacts.startswith_true in Hstart as [rest Hrest].
      exists "", (Py.split sep rest). rewrite Hrest.
      split_and!; [by apply split_match| |right; eauto].
      destruct sep; [done|reflexivity].
    + destruct IH as (piece & pieces & Hsplit & Hocc & Hshape).
      exists (String c piece), pieces. rewrite split_nomatch, Hsplit by done.
      split_and!; [done| |].
      * rewrite PyFacts.occurs_cons, Hocc, orb_false_r.
        destruct (Py.startswith (String c piece) sep) eqn:Hpiece; [|done].
        destruct Hshape as [[_ ->]|(rest & -> & _)]; [congruence|].
        rewrite <- PyFacts.app_cons in Hstart.
        by rewrite (startswith_app _ _ _ Hpiece) in Hstart.
      * destruct Hshape as [[-> ->]|(rest & -> & ->)]; [by left|].
        right. exists rest. by rewrite PyFacts.app_cons.
Qed.

Lemma split_occurs (sep s : string) :
  sep ≠ "" →
  Py.occurs sep s = true ↔ ∃ piece1 piece2 pieces,
                              Py.split sep s = piece1 :: piece2 :: pieces.
Proof.
  intros Hsep.
  destruct (split_head sep s Hsep) as (piece & pieces & Hsplit & Hocc & Hshape).
  rewrite Hsplit. destruct Hshape as [[-> ->]|(rest & -> & ->)].
  - rewrite Hocc. split; [done|]. by intros (? & ? & ? & [=]).
  - rewrite SignatureText.occurs_app_sep. split; [|done]. intros _.
    destruct (split_head sep rest Hsep) as (p2 & ps & -> & _). eauto.
Qed.

(** ** The operator names the enricher stores *)

(** X1: the ['operator_name_with_overload'] the enricher stores is the
    schema string cut before its first parenthesis: it holds no "(", and the
    schema string is that name followed by nothing or by a text that starts
    with "(".  The key is stored whether or not the rest of the loop body
    raises. *)
Theorem enrich_operator_name (declaration : Declaration) :
  ∃ op rest,
    decl_operator_name_with_overload (enrich declaration).1 = Some op ∧
    decl_schema_string declaration = op +:+ rest ∧
    Py.occurs "(" op = false ∧
    (rest = "" ∨ Py.startswith rest "(" = true).
Proof.
  destruct (split_head "(" (decl_schema_string declaration))
    as (op & pieces & Hsplit & Hocc & Hshape); [done|].
  assert (decl_operator_name_with_overload (enrich declaration).1 = Some op)
    as Hop.
  { unfold enrich. rewrite Hsplit. by destruct (getindex _ 1). }
  destruct Hshape as [[_ Hs]|(rest & Hs & _)].
  - exists op, "". rewrite PyFacts.app_nil_r. split_and!; [done..|by left].
  - exists op, ("(" +:+ rest). split_and!; [done..|by right].
Qed.

Lemma enrich_operator_name_eq (declaration : Declaration) :
  decl_operator_name_with_overload (enrich declaration).1
  = Some (default "" (head (Py.split "(" (decl_schema_string declaration)))).
Proof. unfold enrich. by destruct (getindex _ 1). Qed.

(** The loop body runs to its end exactly when the operator name holds
    "::". *)
Lemma enrich_result (declaration : Declaration) :
  (Py.occurs "::" (operator_name declaration) = true ∧
   (enrich declaration).2 = Ok ()) ∨
  (Py.occurs "::" (operator_name declaration) = false ∧
   (enrich declaration).2 = Raise IndexError).
Proof.
  pose proof (split_occurs "::" (operator_name declaration) ltac:(done)) as Hocc.
  unfold enrich, getindex. fold (operator_name declaration).
  destruct (Py.split "::" (operator_name declaration)) as [|p1 [|p2 ps]]; cbn.
  - right. split; [|done]. apply not_true_is_false.
    by intros (? & ? & ? & [=])%Hocc.
  - right. split; [|done]. apply not_true_is_false.
    by intros (? & ? & ? & [=])%Hocc.
  - left. split; [|done]. apply Hocc. eauto.
Qed.



(** X3: when the loop body runs to its end, the operator name is a
    namespace without "::", then "::", then the stored
    ['unqual_operator_name_with_overload'], which holds no "::" either,
    then nothing or a text that starts with "::". *)
Theorem enrich_unqual_operator_name (declaration : Declaration) :
  (enrich declaration).2 = Ok () →
  ∃ op namespace unqual rest,
    decl_operator_name_with_overload (enrich declaration).1 = Some op ∧
    decl_unqual_operator_name_with_overload (enrich declaration).1
    = Some unqual ∧
    op = namespace +:+ "::" +:+ unqual +:+ rest ∧
    Py.occurs "::" namespace = false ∧
    Py.occurs "::" unqual = false ∧
    (rest = "" ∨ Py.startswith rest "::" = true).
Proof.
  intros Hok.
  set (op := default "" (head (Py.split "(" (decl_schema_string declaration)))).
  exists op.
  destruct (split_head "::" op) as (ns & pieces & Hsplit & Hns & Hshape); [done|].
  assert (∀ u, Py.split "::" op !! 1 = Some u →
               decl_unqual_operator_name_with_overload (enrich declaration).1
               = Some u) as Hunqual.
  { unfold enrich, getindex. fold op. by intros u ->. }
  destruct Hshape as [[-> _]|(rest1 & Hop & ->)].
  { exfalso. unfold enrich, getindex in Hok. fold op in Hok.
    by rewrite Hsplit in Hok. }
  destruct (split_head "::" rest1) as (u & pieces & Hsplit1 & Hu & Hshape1);
    [done|].
  exists ns, u.
  assert (decl_unqual_operator_name_with_overload (enrich declaration).1
          = Some u) as Hu'.
  { apply Hunqual. by rewrite Hsplit, Hsplit1. }
  destruct Hshape1 as [[_ ->]|(rest2 & -> & _)].
  - exists "". rewrite PyFacts.app_nil_r.
    split_and!; [apply enrich_operator_name_eq|done..|by left].
  - exists ("::" +:+ rest2).
    split_and!; [apply enrich_operator_name_eq|done..|by right].
Qed.

Lemma enrich_unqual_operator_name_witness :
  ∃ op namespace unqual rest,
    decl_operator_name_with_overload (enrich add_Tensor).1 = Some op ∧
    decl_unqual_operator_name_with_overload (enrich add_Tensor).1
    = Some unqual ∧
    op = namespace +:+ "::" +:+ unqual +:+ rest ∧
    Py.occurs "::" namespace = false ∧
    Py.occurs "::" unqual = false ∧
    (rest = "" ∨ Py.startswith rest "::" = true).
Proof. apply enrich_unqual_operator_name. reflexivity. Defined.

(** ** Runs of the enricher *)


(** A run that raises: where it stopped, and the heap it left. *)
Lemma enrich_all_Raise (declarations : list nat) :
  NoDup declarations →
  ∀ (h h' : list Declaration) (e : exn),
    (∀ l, l ∈ declarations → l < length h) →
    enrich_all declarations h = (h', Raise e) →
    ∃ before l after d,
      declarations = before ++ l :: after ∧
      h !! l = Some d ∧ truthy_bool (decl_deprecated d) = false ∧
      (enrich d).2 = Raise e ∧ h' !! l = Some (enrich d).1 ∧
      (∀ l' d', l' ∈ before → h !! l' = Some d' →
         if truthy_bool (decl_deprecated d') then h' !! l' = Some d'
         else (enrich d').2 = Ok () ∧ h' !! l' = Some (enrich d').1) ∧
      (∀ l', l' ∉ before → l' ≠ l → h' !! l' = h !! l').
Proof.
  induction 1 as [|x rest Hx Hrest IH]; intros h h' e Hvalid Hrun.
  { by injection Hrun. }
  cbn [enrich_all] in Hrun.
  destruct (h !! x) as [d|] eqn:Hd; cycle 1.
  { by injection Hrun. }
  assert (∀ l0, l0 ∈ rest → l0 ≠ x) as Hne by (intros l0 ? ->; done).
  destruct (truthy_bool (decl_deprecated d)) eqn:Hdep.
  - apply IH in Hrun
      as (before & l & after & dl & -> & Hl & Hldep & Hlr & Hl' & Hbefore & Hout);
      [|intros; apply Hvalid; by right].
    exists (x :: before), l, after, dl. split_and!; try done.
    + intros l' d' [->|Hin]%elem_of_cons Hd'; [|by apply Hbefore].
      rewrite Hd in Hd'. injection Hd' as <-. rewrite Hdep.
      rewrite Hout; [done| |].
      * intros ?. apply Hx. apply elem_of_app. by left.
      * intros <-. apply Hx. apply elem_of_app. right. by left.
    + intros l' Hl'' ?. apply Hout; [|done]. intros ?. apply Hl''. by right.
  - destruct (enrich d) as [d' rr] eqn:Henrich. destruct rr as [[]|e'].
    + destruct (enrich_all rest (<[x:=d']> h)) as [h'' sel] eqn:Hrest'.
      destruct sel as [sel|e'']; [by injection Hrun|].
      injection Hrun as <- <-.
      apply IH in Hrest'
        as (before & l & after & dl & -> & Hl & Hldep & Hlr & Hl' & Hbefore & Hout);
        [|intros; rewrite length_insert; apply Hvalid; by right].
      assert (l ≠ x) as Hlx.
      { apply Hne. apply elem_of_app. right. by left. }
      rewrite list_lookup_insert_ne in Hl by done.
      exists (x :: before), l, after, dl. split_and!; try done.
      * intros l' d0 [->|Hin]%elem_of_cons Hd0.
        { rewrite Hd in Hd0. injection Hd0 as <-. rewrite Hdep, Henrich.
          split; [done|]. rewrite Hout; [| |done].
          - apply list_lookup_insert_eq. by apply lookup_lt_Some in Hd.
          - intros ?. apply Hx. apply elem_of_app. by left. }
        apply Hbefore; [done|]. rewrite list_lookup_insert_ne; [done|].
        intros <-. apply Hx. apply elem_of_app. by left.
      * intros l' Hl'' ?. rewrite Hout; [|intros ?; apply Hl''; by right|done].
        apply list_lookup_insert_ne. intros <-. apply Hl''. by left.
    + injection Hrun as <- <-.
      exists [], x, rest, d. rewrite Henrich. split_and!; try done.
      * apply list_lookup_insert_eq. by apply lookup_lt_Some in Hd.
      * intros l' d0 Hin. by apply elem_of_nil in Hin.
      * intros l' _ ?. by apply list_lookup_insert_ne.
Qed.

(** X4: [load_aten_declarations] returns exactly when the operator name of
    every declaration it does not skip holds "::"; a declaration flagged as
    deprecated is never looked at, so its schema string cannot make the run
    fail. *)
Theorem load_aten_declarations_returns_iff
    (h h' : list Declaration) (r : Result (list nat)) :
  load_aten_declarations h = (h', r) →
  (∃ refs, r = Ok refs) ↔
  (∀ l d, h !! l = Some d → truthy_bool (decl_deprecated d) = false →
     Py.occurs "::" (operator_name d) = true).
Proof.
  intros Hrun. split.
  - intros [refs ->] l d Hd Hdep.
    apply load_aten_declarations_spec in Hrun as (_ & _ & Hsel).
    destruct (Hsel refs eq_refl) as [Hrefs Hmem].
    destruct (Hmem l d) as [_ Hok]; [|done|].
    + rewrite Hrefs. apply list_elem_of_filter. split.
      * unfold not_deprecated. by rewrite Hd, Hdep.
      * apply elem_of_seq. apply lookup_lt_Some in Hd. lia.
    + destruct (enrich_result d) as [[? _]|[_ ?]]; [done|congruence].
  - intros Hall. destruct r as [refs|e]; [eauto|]. exfalso.
    unfold load_aten_declarations in Hrun.
    apply enrich_all_Raise in Hrun
      as (_ & l & _ & d & _ & Hd & Hdep & Hraise & _);
      [|apply NoDup_seq0|intros l Hl%elem_of_seq; lia].
    specialize (Hall l d Hd Hdep).
    destruct (enrich_result d) as [[_ ?]|[? _]]; congruence.
Qed.

Lemma load_aten_declarations_returns_iff_witness :
  ∃ refs, (load_aten_declarations [add_Tensor; max_dim]).2 = Ok refs.
Proof.
  apply (load_aten_declarations_returns_iff [add_Tensor; max_dim]
           (load_aten_declarations [add_Tensor; max_dim]).1 _ eq_refl).
  intros [|[|l]] d [= <-] _; reflexivity.
Defined.



Example load_failure_ex :
  (load_aten_declarations
     [add_Tensor; flagged_deprecated; no_namespace; max_dim]).1 !! 3
  = Some max_dim.
Proof. reflexivity. Qed.

(** ** Enriching twice *)

Lemma set_arg_simple_type_idemp (arg : Argument) :
  set_arg_simple_type (set_arg_simple_type arg) = set_arg_simple_type arg.
Proof. reflexivity. Qed.

Lemma set_ret_simple_type_idemp (ret : Return) :
  set_ret_simple_type (set_ret_simple_type ret) = set_ret_simple_type ret.
Proof. reflexivity. Qed.

Lemma map_idemp {A} (f : A → A) (l : list A) :
  (∀ x, f (f x) = f x) → map f (map f l) = map f l.
Proof. intros Hf. induction l as [|x l IH]; [done|]. cbn. by rewrite Hf, IH. Qed.

Lemma enrich_fields (declaration : Declaration) :
  decl_name (enrich declaration).1 = decl_name declaration ∧
  decl_overload_name (enrich declaration).1 = decl_overload_name declaration ∧
  decl_inplace (enrich declaration).1 = decl_inplace declaration ∧
  decl_schema_string (enrich declaration).1 = decl_schema_string declaration ∧
  decl_deprecated (enrich declaration).1 = decl_deprecated declaration ∧
  decl_call_args (enrich declaration).1 = decl_call_args declaration ∧
  decl_arguments (enrich declaration).1
  = map set_arg_simple_type (decl_arguments declaration) ∧
  decl_schema_order_arguments (enrich declaration).1
  = map set_arg_simple_type (decl_schema_order_arguments declaration) ∧
  decl_returns (enrich declaration).1
  = map set_ret_simple_type (decl_returns declaration).
Proof. unfold enrich. by destruct (getindex _ 1). Qed.

(** The loop body writes values that depend on the authored keys only, so
    on a dict it has already enriched it writes what is there. *)
Lemma enrich_idemp (declaration : Declaration) :
  enrich (enrich declaration).1 = enrich declaration.
Proof.
  destruct (enrich_fields declaration)
    as (Hname & Hoverload & Hinplace & Hschema & Hdep & Hcall & Hargs & Hso & Hret).
  destruct (enrich declaration) as [e r] eqn:E. cbn [fst] in *.
  unfold enrich at 1.
  rewrite Hname, Hoverload, Hinplace, Hschema, Hdep, Hcall, Hargs, Hso, Hret.
  rewrite !(map_idemp set_arg_simple_type) by apply set_arg_simple_type_idemp.
  rewrite !(map_idemp set_ret_simple_type) by apply set_ret_simple_type_idemp.
  unfold enrich in E.
  destruct (getindex (Py.split "::" _) 1) as [unqual|e'];
    injection E as <- <-; reflexivity.
Qed.

Lemma enrich_all_fixed (declarations : list nat) (h : list Declaration) :
  (∀ l, l ∈ declarations → l < length h) →
  (∀ l d, l ∈ declarations → h !! l = Some d →
     truthy_bool (decl_deprecated d) = false → enrich d = (d, Ok ())) →
  enrich_all declarations h
  = (h, Ok (filter (λ l, Is_true (not_deprecated h l)) declarations)).
Proof.
  induction declarations as [|x rest IH]; intros Hvalid Hfixed; [done|].
  cbn [enrich_all].
  destruct (h !! x) as [d|] eqn:Hd; cycle 1.
  { apply lookup_ge_None in Hd. specialize (Hvalid x ltac:(left)). lia. }
  assert (enrich_all rest h
          = (h, Ok (filter (λ l, Is_true (not_deprecated h l)) rest))) as Hrest.
  { apply IH; [intros; apply Hvalid; by right|].
    intros l d' ?. apply Hfixed. by right. }
  destruct (truthy_bool (decl_deprecated d)) eqn:Hdep.
  - rewrite Hrest, filter_cons_False; [done|].
    unfold not_deprecated. rewrite Hd, Hdep. cbn. tauto.
  - rewrite (Hfixed x d) by (done || by left).
    rewrite list_insert_id by done. rewrite Hrest.
    rewrite filter_cons_True; [done|].
    unfold not_deprecated. by rewrite Hd, Hdep.
Qed.

(** X6: enriching is idempotent.  Running [load_aten_declarations] again
    on the document a successful run has left changes nothing in it and
    returns the same list. *)
Theorem load_aten_declarations_twice
    (h h' : list Declaration) (refs : list nat) :
  load_aten_declarations h = (h', Ok refs) →
  load_aten_declarations h' = (h', Ok refs).
Proof.
  intros (Hlen & Hcell & Hsel)%load_aten_declarations_spec.
  destruct (Hsel refs eq_refl) as [Hrefs Hmem].
  assert (∀ l d', h' !! l = Some d' →
            ∃ d, h !! l = Some d ∧
                 decl_deprecated d' = decl_deprecated d ∧
                 (truthy_bool (decl_deprecated d) = false →
                  d' = (enrich d).1 ∧ (enrich d).2 = Ok ())) as Hback.
  { intros l d' Hd'.
    destruct (lookup_lt_is_Some_2 h l) as [d Hd].
    { rewrite <- Hlen. by apply lookup_lt_Some in Hd'. }
    exists d. split; [done|].
    assert (truthy_bool (decl_deprecated d) = false →
            d' = (enrich d).1 ∧ (enrich d).2 = Ok ()) as Hnew.
    { intros Hdep. destruct (Hmem l d) as [Hl Hok]; [|done|].
      - rewrite Hrefs. apply list_elem_of_filter. split.
        + unfold not_deprecated. by rewrite Hd, Hdep.
        + apply elem_of_seq. apply lookup_lt_Some in Hd. lia.
      - split; [congruence|done]. }
    split; [|done].
    destruct (Hcell l d Hd) as [Hsame|[Hdep Hl]]; [congruence|].
    destruct (Hnew Hdep) as [-> _].
    by destruct (enrich_same_authored_keys d) as (_ & _ & _ & _ & ? & _). }
  unfold load_aten_declarations. rewrite enrich_all_fixed.
  - f_equal. f_equal. rewrite Hrefs, Hlen. apply list_filter_iff.
    intros l. unfold not_deprecated.
    destruct (h' !! l) as [d'|] eqn:Hd'.
    + destruct (Hback l d' Hd') as (d & -> & -> & _). done.
    + apply lookup_ge_None in Hd'. rewrite Hlen in Hd'.
      apply lookup_ge_None in Hd'. by rewrite Hd'.
  - intros l Hl%elem_of_seq. lia.
  - intros l d' _ Hd' Hdep.
    destruct (Hback l d' Hd') as (d & Hd & Hflag & Hnew).
    rewrite Hflag in Hdep. destruct (Hnew Hdep) as [-> Hok].
    rewrite enrich_idemp. by rewrite <- Hok, <- surjective_pairing.
Qed.

Lemma load_aten_declarations_twice_witness :
  load_aten_declarations
    (load_aten_declarations [add_Tensor; flagged_deprecated; max_dim]).1
  = ((load_aten_declarations [add_Tensor; flagged_deprecated; max_dim]).1,
     Ok [0; 2]).
Proof.
  apply (load_aten_declarations_twice
           [add_Tensor; flagged_deprecated; max_dim]).
  reflexivity.
Defined.

(** ** From the enricher to the grouper *)

(** What the caller of the enricher holds are enriched copies of the
    declarations of the document that are not flagged as deprecated. *)
Lemma loaded_declarations_elem (h decls : list Declaration) (x : Declaration) :
  loaded_declarations h = Ok decls → x ∈ decls →
  ∃ d0, d0 ∈ h ∧ truthy_bool (decl_deprecated d0) = false ∧
        (enrich d0).2 = Ok () ∧ x = (enrich d0).1.
Proof.
  unfold loaded_declarations.
  destruct (load_aten_declarations h) as [h' r] eqn:Hrun.
  destruct r as [refs|e]; [|done]. intros [= <-].
  apply load_aten_declarations_spec in Hrun as (Hlen & _ & Hsel).
  destruct (Hsel refs eq_refl) as [Hrefs Hmem].
  unfold objects. intros (l & Hl & Hx)%list_elem_of_omap.
  assert (is_Some (h !! l)) as [d0 Hd0].
  { apply lookup_lt_is_Some. rewrite <- Hlen. by apply lookup_lt_Some in Hx. }
  destruct (Hmem l d0 Hl Hd0) as [Hnew Hok].
  exists d0. split_and!; [by eapply list_elem_of_lookup_2| |done|congruence].
  rewrite Hrefs in Hl. apply list_elem_of_filter in Hl as [Hnd _].
  unfold not_deprecated in Hnd. rewrite Hd0 in Hnd.
  by destruct (truthy_bool (decl_deprecated d0)).
Qed.

Lemma enriched_simple_types (d0 : Declaration) :
  simple_types (enrich d0).1
  = map Some (map (λ arg, normalize (arg_type arg)) (decl_arguments d0)).
Proof.
  unfold simple_types.
  destruct (enrich_fields d0) as (_ & _ & _ & _ & _ & _ & -> & _).
  induction (decl_arguments d0) as [|a l IH]; [done|]. cbn. by rewrite IH.
Qed.

Lemma group_loop_Ok (aten_decls : list Declaration)
    (d0 : gmap string (list Declaration)) :
  Forall (λ x, ∃ key, declaration_signature x = Ok key) aten_decls →
  ∃ d, group_loop aten_decls d0 = Ok d.
Proof.
  intros Hall. revert d0.
  induction Hall as [|x rest [key Hkey] _ IH]; intros d0; [by eexists|].
  cbn [group_loop]. rewrite Hkey. cbn.
  destruct (defaultdict_getitem d0 key) as [bucket d1]. apply IH.
Qed.

(** X7: the grouper never fails on what the enricher returns.  The key of
    an enriched declaration is its base name followed, in parentheses, by
    the simple types of its argument types joined with ", ". *)
Theorem loaded_declarations_group (h decls : list Declaration) :
  loaded_declarations h = Ok decls →
  (∃ d, group_declarations_by_signature decls = Ok d) ∧
  ∀ x, x ∈ decls →
    declaration_signature x
    = Ok (signature_base_name x +:+ "("
          +:+ Py.join ", " (map (λ arg, normalize (arg_type arg))
                                (decl_arguments x))
          +:+ ")").
Proof.
  intros Hload.
  assert (∀ x, x ∈ decls →
            declaration_signature x
            = Ok (signature_base_name x +:+ "("
                  +:+ Py.join ", " (map (λ arg, normalize (arg_type arg))
                                        (decl_arguments x))
                  +:+ ")")) as Hsig.
  { intros x Hx.
    destruct (loaded_declarations_elem h decls x Hload Hx)
      as (d0 & _ & _ & _ & ->).
    apply declaration_signature_Ok.
    exists (map (λ arg, normalize (arg_type arg)) (decl_arguments d0)).
    split; [apply enriched_simple_types|].
    assert (map (λ arg, normalize (arg_type arg)) (decl_arguments (enrich d0).1)
            = map (λ arg, normalize (arg_type arg)) (decl_arguments d0)) as ->;
      [|done].
    destruct (enrich_fields d0) as (_ & _ & _ & _ & _ & _ & -> & _).
    induction (decl_arguments d0) as [|a l IH]; [done|]. cbn. by rewrite IH. }
  split; [|done]. apply group_loop_Ok, Forall_forall. intros x Hx.
  rewrite (Hsig x Hx). eauto.
Qed.

Lemma loaded_declarations_group_witness :
  (∃ d, group_declarations_by_signature
          [(enrich add_Tensor).1; (enrich max_dim).1] = Ok d) ∧
  declaration_signature (enrich max_dim).1 = Ok "max(Tensor, int64_t, bool)".
Proof.
  destruct (loaded_declarations_group [add_Tensor; max_dim]
              [(enrich add_Tensor).1; (enrich max_dim).1] eq_refl)
    as [Hgroup Hsig].
  split; [exact Hgroup|].
  rewrite (Hsig (enrich max_dim).1); [reflexivity|]. right. by left.
Defined.

Lemma declaration_signature_cases (x : Declaration) :
  (∃ key, declaration_signature x = Ok key ∧
          Forall (λ arg, is_Some (arg_simple_type arg)) (decl_arguments x)) ∨
  (declaration_signature x = Raise (KeyError "simple_type") ∧
   Exists (λ arg, arg_simple_type arg = None) (decl_arguments x)).
Proof.
  unfold declaration_signature.
  induction (decl_arguments x) as [|a l IH].
  - left. eexists. split; [reflexivity|constructor].
  - rewrite mapM_cons. destruct (arg_simple_type a) as [t|] eqn:Ha; cbn.
    + destruct IH as [(key & Hkey & Hall)|[Hraise Hex]].
      * left. destruct (mapM _ l) as [ts|]; [|done]. cbn.
        eexists. split; [reflexivity|]. constructor; [by rewrite Ha|done].
      * right. destruct (mapM _ l) as [ts|e]; [done|]. cbn in *.
        split; [done|]. by right.
    + right. split; [done|]. by left.
Qed.

Lemma group_loop_Raise (aten_decls : list Declaration)
    (d0 : gmap string (list Declaration)) :
  Exists (λ x, Exists (λ arg, arg_simple_type arg = None) (decl_arguments x))
         aten_decls →
  group_loop aten_decls d0 = Raise (KeyError "simple_type").
Proof.
  intros Hex. revert d0. induction aten_decls as [|x rest IH]; intros d0.
  { by apply Exists_nil in Hex. }
  cbn [group_loop].
  destruct (declaration_signature_cases x) as [(key & -> & Hall)|[-> _]];
    [|done].
  cbn. destruct (defaultdict_getitem d0 key) as [bucket d1].
  apply IH. apply Exists_cons in Hex as [Hx|Hrest]; [|done].
  exfalso. apply Exists_exists in Hx as (arg & Harg & Hnone).
  rewrite Forall_forall in Hall. destruct (Hall arg Harg). congruence.
Qed.

Section missing_simple_type.

Variable split_name_params : string → Result (string * list string).

(** X8: [load_deprecated_signatures] groups the declarations before it
    reads a single deprecated entry, so a declaration with an argument that
    has no ['simple_type'] (one the enricher has not seen) makes it raise
    [KeyError('simple_type')] whatever the deprecated entries are, even
    when there are none. *)
Theorem load_deprecated_signatures_unenriched
    (aten_decls : list Declaration) (deprecated_defs : list DeprecatedDef)
    (x : Declaration) (arg : Argument) :
  x ∈ aten_decls → arg ∈ decl_arguments x → arg_simple_type arg = None →
  load_deprecated_signatures split_name_params aten_decls deprecated_defs
  = Raise (KeyError "simple_type").
Proof.
  intros Hx Harg Hnone. unfold load_deprecated_signatures.
  unfold group_declarations_by_signature. rewrite group_loop_Raise; [done|].
  apply Exists_exists. exists x. split; [done|].
  apply Exists_exists. eauto.
Qed.

End missing_simple_type.

Lemma load_deprecated_signatures_unenriched_witness :
  load_deprecated_signatures split_name_params [add_Tensor] []
  = Raise (KeyError "simple_type").
Proof.
  apply (load_deprecated_signatures_unenriched split_name_params
           [add_Tensor] [] add_Tensor (tensor_arg "self"));
    [by left|by left|reflexivity].
Defined.

(** ** Positions of the call arguments *)

Lemma last_occurrence {A} `{EqDecision A} (l : list A) (x : A) :
  x ∈ l → ∃ i, l !! i = Some x ∧ ∀ j, i < j → l !! j ≠ Some x.
Proof.
  induction l as [|y l IH]; intros Hin; [by apply elem_of_nil in Hin|].
  destruct (decide (x ∈ l)) as [Hl|Hl].
  - destruct (IH Hl) as (i & Hi & Hlast). exists (S i). split; [done|].
    intros [|j] ?; [lia|]. apply Hlast. lia.
  - apply elem_of_cons in Hin as [->|?]; [|done]. exists 0. split; [done|].
    intros [|j] ? Hj; [lia|]. apply Hl. by eapply list_elem_of_lookup_2.
Qed.

Lemma call_arg_to_idx_last (call_args : list string) (arg : string) (i : nat) :
  call_args !! i = Some arg → (∀ j, i < j → call_args !! j ≠ Some arg) →
  call_arg_to_idx call_args !! arg = Some i.
Proof.
  intros Hi Hlast.
  rewrite <- (take_drop_middle call_args i arg Hi) at 1.
  unfold call_arg_to_idx. rewrite imap_app, imap_cons.
  assert (length (take i call_args) = i) as Hlen.
  { rewrite length_take. apply lookup_lt_Some in Hi. lia. }
  rewrite dict_lookup_last; [f_equal; lia|].
  intros v (j & y & [= Hy Hv] & Hj)%elem_of_lookup_imap. subst y.
  rewrite lookup_drop in Hj. apply (Hlast (S i + j)); [lia|done].
Qed.

(** X9: [call_arg_to_idx] maps a call argument to its last position in the
    call: when an argument is passed more than once, the later position
    overrides the earlier one.  A name that is not a call argument has no
    entry. *)
Theorem call_arg_to_idx_position (call_args : list string) (arg : string) :
  (∀ i, call_arg_to_idx call_args !! arg = Some i ↔
        call_args !! i = Some arg ∧ ∀ j, i < j → call_args !! j ≠ Some arg) ∧
  (call_arg_to_idx call_args !! arg = None ↔ arg ∉ call_args).
Proof.
  assert (∀ i, call_args !! i = Some arg →
               (∀ j, i < j → call_args !! j ≠ Some arg) →
               call_arg_to_idx call_args !! arg = Some i) as Hlast
    by apply call_arg_to_idx_last.
  split.
  - intros i. split; [|intros [? ?]; by apply Hlast].
    intros Hi. pose proof (call_arg_to_idx_Some _ _ _ Hi) as Hcall.
    split; [done|].
    destruct (last_occurrence call_args arg) as (k & Hk & Hklast);
      [by eapply list_elem_of_lookup_2|].
    rewrite (Hlast k Hk Hklast) in Hi. injection Hi as ->. done.
  - split; [|apply call_arg_to_idx_None].
    intros Hnone Hin. apply call_arg_to_idx_elem in Hin as [i Hi]. congruence.
Qed.

Example call_arg_to_idx_ex :
  call_arg_to_idx ["self"; "other"; "self"] !! "self" = Some 2.
Proof. reflexivity. Qed.

(** ** The arguments of a resolved declaration *)

(** What the loop over the legacy parameters builds, when it returns. *)
Lemma deprecated_arguments_Ok (params : list string) (kwarg_only : bool)
    (idx : gmap string nat) (original_args arguments : list Argument) :
  deprecated_arguments params kwarg_only idx original_args = Ok arguments →
  Forall2 (λ pk argument,
             ∃ param_type param_name i original,
               Py.split " " pk.1 = [param_type; param_name] ∧
               idx !! param_name = Some i ∧
               original_args !! i = Some original ∧
               is_Some (arg_simple_type original) ∧
               argument = legacy_argument param_name pk.2 original)
          (legacy_parameters params kwarg_only) arguments.
Proof.
  revert kwarg_only arguments.
  induction params as [|param rest IH]; intros kwarg_only arguments;
    cbn [deprecated_arguments legacy_parameters].
  { intros [= <-]. constructor. }
  case_decide; [apply IH|].
  intros ([t n] & Hsplit%split_param_Ok & H1)%bind_Ok_inv.
  apply bind_Ok_inv in H1 as (i & Hi & H2).
  apply bind_Ok_inv in H2 as (original & Ho & H3).
  apply bind_Ok_inv in H3 as (simple_type & Hs & H4).
  apply bind_Ok_inv in H4 as (arguments' & Hrest & [= <-]).
  constructor; [|by apply IH].
  exists t, n, i, original. cbn [fst snd].
  unfold getitem in Hi, Hs. unfold getindex in Ho.
  destruct (idx !! n); [|done]. injection Hi as ->.
  destruct (original_args !! i); [|done]. injection Ho as ->.
  destruct (arg_simple_type original) as [s|] eqn:Hst; [|done].
  injection Hs as ->.
  split_and!; [done..|eauto|]. unfold legacy_argument. by rewrite Hst.
Qed.

Lemma legacy_parameters_length (params : list string) (kwarg_only : bool) :
  length (legacy_parameters params kwarg_only)
  = length (filter (λ param, param ≠ "*") params).
Proof.
  revert kwarg_only. induction params as [|p rest IH]; intros kw; [done|].
  cbn [legacy_parameters]. rewrite filter_cons.
  case_decide; case_decide; try done; cbn; by rewrite IH.
Qed.

(** X10: when the loop over the legacy parameters returns, it has built one
    argument per parameter, the sentinel "*" left out, in the order of the
    legacy list.  Each argument is named after its parameter, is keyword-only
    exactly when a sentinel comes before it in the list, and has the type,
    simple type, dynamic type and output flag (false when absent) of the
    canonical argument found at the last position of its name among the
    call arguments; it has no default. *)
Theorem deprecated_arguments_built (params call_args : list string)
    (original_args arguments : list Argument) :
  deprecated_arguments params false (call_arg_to_idx call_args) original_args
  = Ok arguments →
  length arguments = length (filter (λ param, param ≠ "*") params) ∧
  Forall2 (λ pk argument,
             ∃ param_type i original,
               Py.split " " pk.1 = [param_type; arg_name argument] ∧
               call_args !! i = Some (arg_name argument) ∧
               (∀ j, i < j → call_args !! j ≠ Some (arg_name argument)) ∧
               original_args !! i = Some original ∧
               arg_kwarg_only argument = Some pk.2 ∧
               arg_type argument = arg_type original ∧
               arg_simple_type argument = arg_simple_type original ∧
               arg_dynamic_type argument = arg_dynamic_type original ∧
               arg_output argument = Some (default false (arg_output original)) ∧
               arg_default argument = None)
          (legacy_parameters params false) arguments.
Proof.
  intros Hrun%deprecated_arguments_Ok. split.
  - rewrite <- (Forall2_length _ _ _ Hrun). apply legacy_parameters_length.
  - eapply Forall2_impl; [exact Hrun|].
    intros [p kw] argument (t & n & i & o & Hsplit & Hi & Ho & _ & ->).
    cbn [fst snd] in *. exists t, i, o. cbn.
    pose proof (call_arg_to_idx_Some _ _ _ Hi) as Hcall.
    split_and!; try done.
    destruct (last_occurrence call_args n) as (k & Hk & Hklast);
      [by eapply list_elem_of_lookup_2|].
    rewrite (call_arg_to_idx_last _ _ _ Hk Hklast) in Hi.
    injection Hi as ->. done.
Qed.

Lemma deprecated_arguments_built_witness :
  ∃ arguments,
    deprecated_arguments ["Tensor self"; "*"; "Scalar alpha"; "Tensor other"]
      false (call_arg_to_idx ["self"; "other"; "alpha"])
      (decl_arguments (enrich add_Tensor).1) = Ok arguments ∧
    length arguments = 3 ∧
    map arg_kwarg_only arguments = [Some false; Some true; Some true].
Proof.
  eexists. split; [reflexivity|].
  split; [|reflexivity].
  apply (deprecated_arguments_built
           ["Tensor self"; "*"; "Scalar alpha"; "Tensor other"]
           ["self"; "other"; "alpha"]
           (decl_arguments (enrich add_Tensor).1)).
  reflexivity.
Defined.

(** ** What the resolver returns *)

Lemma deprecated_declaration_Ok (params call_args : list string)
    (c r : Declaration) :
  deprecated_declaration params call_args c = Ok r →
  decl_deprecated r = Some true ∧ decl_call_args r = Some call_args ∧
  same_but_arguments c r ∧
  deprecated_arguments params false (call_arg_to_idx call_args)
    (decl_arguments c) = Ok (decl_arguments r).
Proof.
  unfold deprecated_declaration.
  intros (arguments & Hargs & [= <-])%bind_Ok_inv. cbn.
  unfold same_but_arguments. cbn. split_and!; done.
Qed.

Section resolved.

Variable split_name_params : string → Result (string * list string).

Lemma resolve_deprecated_elem (d : gmap string (list Declaration))
    (deprecated : DeprecatedDef) (resolved : list Declaration)
    (d1 : gmap string (list Declaration)) (r : Declaration) :
  resolve_deprecated split_name_params d deprecated = Ok (resolved, d1) →
  r ∈ resolved →
  ∃ c aten_name call_args name params signature,
    split_name_params (dep_aten deprecated) = Ok (aten_name, call_args) ∧
    split_name_params (dep_name deprecated) = Ok (name, params) ∧
    get_signature aten_name params call_args = Ok signature ∧
    c ∈ default [] (d !! signature) ∧
    deprecated_declaration params call_args c = Ok r.
Proof.
  unfold resolve_deprecated.
  intros ([aten_name call_args] & Haten & H1)%bind_Ok_inv Hr.
  apply bind_Ok_inv in H1 as ([name params] & Hname & H2).
  apply bind_Ok_inv in H2 as (signature & Hsig & H3).
  pose proof (defaultdict_getitem_fst d signature) as Hfst.
  destruct (defaultdict_getitem d signature) as [bucket d']. cbn in Hfst.
  apply bind_Ok_inv in H3 as (res & Hres%mapM_Ok & [= <- _]).
  apply list_elem_of_lookup in Hr as [i Hi].
  destruct (Forall2_lookup_r _ _ _ _ _ Hres Hi) as (c & Hc & Hcr).
  exists c, aten_name, call_args, name, params, signature.
  split_and!; try done. rewrite <- Hfst. by eapply list_elem_of_lookup_2.
Qed.

Lemma resolve_loop_elem (deprecated_defs : list DeprecatedDef)
    (d0 d : gmap string (list Declaration)) (out : list Declaration)
    (r : Declaration) :
  same_reads d d0 →
  resolve_loop split_name_params deprecated_defs d = Ok out → r ∈ out →
  ∃ deprecated c aten_name call_args name params signature,
    deprecated ∈ deprecated_defs ∧
    split_name_params (dep_aten deprecated) = Ok (aten_name, call_args) ∧
    split_name_params (dep_name deprecated) = Ok (name, params) ∧
    get_signature aten_name params call_args = Ok signature ∧
    c ∈ default [] (d0 !! signature) ∧
    deprecated_declaration params call_args c = Ok r.
Proof.
  revert d out. induction deprecated_defs as [|x rest IH]; intros d out Hreads.
  { intros [= <-] Hr. by apply elem_of_nil in Hr. }
  cbn [resolve_loop].
  intros ([resolved d1] & Hx & (more & Hmore & [= <-])%bind_Ok_inv)%bind_Ok_inv.
  intros [Hr|Hr]%elem_of_app.
  - destruct (resolve_deprecated_elem _ _ _ _ _ Hx Hr)
      as (c & an & ca & n & ps & sig & ? & ? & ? & Hc & ?).
    exists x, c, an, ca, n, ps, sig. rewrite <- Hreads.
    split_and!; try done. by left.
  - apply resolve_deprecated_Ok in Hx.
    destruct (IH d1 more) as (dep & c & an & ca & n & ps & sig & ? & Hrest);
      [by intros key; rewrite Hx|done..|].
    exists dep, c, an, ca, n, ps, sig. split; [by right|done].
Qed.

(** X11: every declaration [load_deprecated_signatures] returns is a copy
    of a canonical declaration whose key is the signature of one of the
    deprecated entries: it is flagged as deprecated, carries the call
    arguments of that entry, has the arguments the loop over the entry's
    legacy parameters builds, and every other key as in the canonical
    declaration. *)
Theorem load_deprecated_signatures_elem
    (aten_decls : list Declaration) (deprecated_defs : list DeprecatedDef)
    (out : list Declaration) (r : Declaration) :
  load_deprecated_signatures split_name_params aten_decls deprecated_defs
  = Ok out →
  r ∈ out →
  ∃ deprecated c aten_name call_args name params,
    deprecated ∈ deprecated_defs ∧ c ∈ aten_decls ∧
    split_name_params (dep_aten deprecated) = Ok (aten_name, call_args) ∧
    split_name_params (dep_name deprecated) = Ok (name, params) ∧
    declaration_signature c = get_signature aten_name params call_args ∧
    decl_deprecated r = Some true ∧
    decl_call_args r = Some call_args ∧
    same_but_arguments c r ∧
    deprecated_arguments params false (call_arg_to_idx call_args)
      (decl_arguments c) = Ok (decl_arguments r).
Proof.
  unfold load_deprecated_signatures.
  intros (d & Hgroup & Hloop)%bind_Ok_inv Hr.
  destruct (resolve_loop_elem deprecated_defs d d out r) as
    (dep & c & an & ca & n & ps & sig & Hdep & Han & Hn & Hsig & Hc & Hcr);
    [done..|].
  apply group_declarations_by_signature_lookup in Hgroup as [_ Hd].
  rewrite Hd in Hc. apply list_elem_of_filter in Hc as [Hcsig Hc].
  apply deprecated_declaration_Ok in Hcr as (? & ? & ? & ?).
  exists dep, c, an, ca, n, ps. split_and!; try done. congruence.
Qed.

(** The loop over the entries, cut in two. *)
Lemma resolve_loop_app (defs1 defs2 : list DeprecatedDef)
    (d : gmap string (list Declaration)) :
  resolve_loop split_name_params (defs1 ++ defs2) d
  = (out1 ← resolve_loop split_name_params defs1 d;
     out2 ← resolve_loop split_name_params defs2 d;
     Ok (out1 ++ out2)).
Proof.
  revert d. induction defs1 as [|x rest IH]; intros d.
  { cbn. by destruct (resolve_loop _ defs2 d). }
  cbn [app resolve_loop].
  destruct (resolve_deprecated split_name_params d x) as [[res d1]|e] eqn:Hx;
    [|done].
  cbn. rewrite IH. apply resolve_deprecated_Ok in Hx.
  rewrite (resolve_loop_ext split_name_params defs2 d1 d Hx).
  destruct (resolve_loop _ rest d1) as [out1|]; [|done]. cbn.
  destruct (resolve_loop _ defs2 d) as [out2|]; [|done]. cbn.
  by rewrite app_assoc.
Qed.

(** X12: the deprecated entries are resolved one by one against the same
    buckets, in order: resolving a list of entries gives what resolving
    its first part gives, followed by what resolving its second part
    gives, and raises what the first of the two to raise raises. *)
Theorem load_deprecated_signatures_app
    (aten_decls : list Declaration) (defs1 defs2 : list DeprecatedDef) :
  load_deprecated_signatures split_name_params aten_decls (defs1 ++ defs2)
  = (out1 ← load_deprecated_signatures split_name_params aten_decls defs1;
     out2 ← load_deprecated_signatures split_name_params aten_decls defs2;
     Ok (out1 ++ out2)).
Proof.
  unfold load_deprecated_signatures.
  destruct (group_declarations_by_signature aten_decls) as [d|e]; [|done].
  cbn. apply resolve_loop_app.
Qed.

(** X13: in the list [aten_decls + deprecated] that [gen_autograd_python]
    hands to the binding generators, the ['deprecated'] key tells the two
    parts apart: no declaration the enricher returns has it set, and every
    declaration the resolver returns has it set to [True]. *)
Theorem deprecated_flag_partition (h aten_decls : list Declaration)
    (deprecated_defs : list DeprecatedDef) (deprecated : list Declaration) :
  loaded_declarations h = Ok aten_decls →
  load_deprecated_signatures split_name_params aten_decls deprecated_defs
  = Ok deprecated →
  Forall (λ x, truthy_bool (decl_deprecated x) = false) aten_decls ∧
  Forall (λ x, decl_deprecated x = Some true) deprecated ∧
  filter (λ x, truthy_bool (decl_deprecated x) = true)
         (aten_decls ++ deprecated) = deprecated.
Proof.
  intros Hload Hres.
  assert (Forall (λ x, truthy_bool (decl_deprecated x) = false) aten_decls)
    as H1.
  { apply Forall_forall. intros x Hx.
    destruct (loaded_declarations_elem h aten_decls x Hload Hx)
      as (d0 & _ & Hdep & _ & ->).
    by destruct (enrich_fields d0) as (_ & _ & _ & _ & -> & _). }
  assert (Forall (λ x, decl_deprecated x = Some true) deprecated) as H2.
  { apply Forall_forall. intros r Hr.
    unfold load_deprecated_signatures in Hres.
    apply bind_Ok_inv in Hres as (d & _ & Hloop).
    destruct (resolve_loop_elem deprecated_defs d d deprecated r)
      as (_ & c & _ & ca & _ & ps & _ & _ & _ & _ & _ & _ & Hcr); [done..|].
    by apply deprecated_declaration_Ok in Hcr as [? _]. }
  split_and!; [done..|]. rewrite filter_app.
  assert (filter (λ x, truthy_bool (decl_deprecated x) = true) aten_decls = [])
    as ->.
  { clear -H1. induction H1 as [|x l Hx _ IH]; [done|].
    rewrite filter_cons_False by congruence. done. }
  cbn [app]. clear -H2. induction H2 as [|x l Hx _ IH]; [done|].
  rewrite filter_cons_True by (by rewrite Hx). by rewrite IH.
Qed.

End resolved.

Lemma load_deprecated_signatures_elem_witness :
  ∃ r c, load_deprecated_signatures split_name_params
           [(enrich add_Tensor).1; (enrich max_dim).1] [deprecated_add]
         = Ok [r] ∧
         c ∈ [(enrich add_Tensor).1; (enrich max_dim).1] ∧
         decl_deprecated r = Some true ∧ same_but_arguments c r.
Proof.
  destruct (load_deprecated_signatures split_name_params
              [(enrich add_Tensor).1; (enrich max_dim).1] [deprecated_add])
    as [[|r [|]]|] eqn:Hrun; try by vm_compute in Hrun.
  destruct (load_deprecated_signatures_elem split_name_params _ _ _ r Hrun)
    as (_ & c & _ & _ & _ & _ & _ & Hc & _ & _ & _ & Hflag & _ & Hsame & _);
    [by left|].
  exists r, c. done.
Defined.

Lemma deprecated_flag_partition_witness :
  ∃ aten_decls deprecated,
    loaded_declarations [add_Tensor; flagged_deprecated; max_dim]
    = Ok aten_decls ∧
    load_deprecated_signatures split_name_params aten_decls [deprecated_add]
    = Ok deprecated ∧
    filter (λ x, truthy_bool (decl_deprecated x) = true)
           (aten_decls ++ deprecated) = deprecated.
Proof.
  destruct (loaded_declarations [add_Tensor; flagged_deprecated; max_dim])
    as [aten_decls|] eqn:Hload; [|by vm_compute in Hload].
  destruct (load_deprecated_signatures split_name_params aten_decls
              [deprecated_add]) as [deprecated|] eqn:Hres.
  - exists aten_decls, deprecated. split_and!; [done..|].
    by destruct (deprecated_flag_partition split_name_params _ _ _ _
                   Hload Hres) as (_ & _ & ?).
  - exfalso. vm_compute in Hload. injection Hload as <-.
    by vm_compute in Hres.
Defined.

(** ** When [get_signature] returns *)

Lemma split_space_length (s : string) :
  length (Py.split " " s) = S (count_char " " s).
Proof.
  induction s as [|b s IH]; [done|]. cbn [count_char].
  case_decide as Hb.
  - subst b. change (String " " s) with (" " +:+ s).
    rewrite (split_match " " s) by done. cbn. by rewrite IH.
  - rewrite split_nomatch.
    + destruct (Py.split " " s) as [|p ps]; [done|]. exact IH.
    + unfold Py.startswith. cbn. by rewrite decide_False.
Qed.

Lemma split_param_cases (param : string) :
  (count_char " " param = 1 ∧ ∃ tn, split_param param = Ok tn) ∨
  (count_char " " param ≠ 1 ∧ split_param param = Raise ValueError).
Proof.
  pose proof (split_space_length param) as Hlen. unfold split_param.
  destruct (Py.split " " param) as [|t [|n [|]]]; cbn in Hlen.
  - lia.
  - right. split; [lia|done].
  - left. split; [lia|eauto].
  - right. split; [lia|done].
Qed.

Lemma mapM_cases {A B} (f : A → Result B) (l : list A) :
  (∃ k, mapM f l = Ok k ∧ Forall (λ x, ∃ y, f x = Ok y) l) ∨
  (∃ x e, mapM f l = Raise e ∧ x ∈ l ∧ f x = Raise e).
Proof.
  induction l as [|x l IH].
  - left. eexists. split; [reflexivity|constructor].
  - rewrite mapM_cons. destruct (f x) as [y|e] eqn:Hx; cbn.
    + destruct IH as [(k & -> & Hall)|(x' & e & -> & Hin & Hx')]; cbn.
      * left. eexists. split; [reflexivity|]. constructor; eauto.
      * right. exists x', e. split_and!; [done| by right |done].
    + right. exists x, e. split_and!; [done|by left|done].
Qed.

(** X14: [get_signature] returns exactly when every legacy parameter other
    than the sentinel "*" holds exactly one space; otherwise it raises
    [ValueError].  The call arguments play no part in that: any text is
    accepted as a call argument. *)
Theorem get_signature_returns_iff (name : string)
    (params call_args : list string) :
  ((∃ signature, get_signature name params call_args = Ok signature) ↔
   (∀ param, param ∈ params → param ≠ "*" → count_char " " param = 1)) ∧
  (∀ e, get_signature name params call_args = Raise e → e = ValueError).
Proof.
  unfold get_signature, rearranged_types.
  destruct (mapM_cases
              (λ param, '(param_type, param_name) ← split_param param;
                        Ok (param_name, param_type))
              (filter (λ param, param ≠ "*") params))
    as [(pairs & -> & Hall)|(x & e & -> & Hx & Hraise)]; cbn.
  - split; [|done]. split; [|eauto]. intros _ param Hin Hstar.
    rewrite Forall_forall in Hall.
    destruct (Hall param) as [y Hy]; [by apply list_elem_of_filter|].
    destruct (split_param_cases param) as [[? _]|[_ Hv]]; [done|].
    by rewrite Hv in Hy.
  - apply list_elem_of_filter in Hx as [Hstar Hx].
    destruct (split_param_cases x) as [[_ [[t n] Hok]]|[Hcount Hv]].
    { by rewrite Hok in Hraise. }
    rewrite Hv in Hraise. injection Hraise as <-.
    split; [|by intros e [= <-]]. split; [by intros [? [=]]|].
    intros Hall. by specialize (Hall x Hx Hstar).
Qed.

Example get_signature_ValueError_ex :
  get_signature "add" ["Tensor self"; "Tensor  other"] ["self"; "other"]
  = Raise ValueError ∧
  get_signature "add" ["Tensor"] [] = Raise ValueError.
Proof. split; reflexivity. Qed.

(** ** [has_tensoroptions_argument] *)




(** ** More on the buckets *)



Lemma group_loop_nonempty (aten_decls : list Declaration)
    (d0 d : gmap string (list Declaration)) :
  (∀ key bucket, d0 !! key = Some bucket → bucket ≠ []) →
  group_loop aten_decls d0 = Ok d →
  ∀ key bucket, d !! key = Some bucket → bucket ≠ [].
Proof.
  revert d0. induction aten_decls as [|x rest IH]; intros d0 Hd0.
  { by intros [= <-]. }
  cbn [group_loop]. intros (sig & Hsig & Hrest)%bind_Ok_inv.
  unfold defaultdict_getitem in Hrest.
  destruct (d0 !! sig) as [old|] eqn:E; (eapply IH; [|exact Hrest]);
    intros key bucket; (destruct (decide (sig = key)) as [<-|Hne];
      [rewrite lookup_insert_eq; intros [= <-]; try by destruct old
      |rewrite !lookup_insert_ne by done; apply Hd0]).
  done.
Qed.

(** X17: the grouper's dict has one bucket per key in use and no empty
    bucket.  The bucket of a key holds the declarations with that key in
    the order of the input list, a declaration listed twice standing in it
    twice; a key is absent exactly when no declaration has it. *)
Theorem grouper_bucket_contents (aten_decls : list Declaration)
    (d : gmap string (list Declaration)) :
  group_declarations_by_signature aten_decls = Ok d →
  (∀ key bucket, d !! key = Some bucket →
     bucket ≠ [] ∧
     bucket = filter (λ x, declaration_signature x = Ok key) aten_decls) ∧
  (∀ key, d !! key = None ↔
          ∀ x, x ∈ aten_decls → declaration_signature x ≠ Ok key).
Proof.
  intros Hgroup.
  pose proof (group_loop_nonempty aten_decls ∅ d
                ltac:(by intros ?? ?%lookup_empty_Some) Hgroup) as Hne.
  apply group_declarations_by_signature_lookup in Hgroup as [_ Hd].
  split.
  - intros key bucket Hkey. split; [by eapply Hne|].
    specialize (Hd key). by rewrite Hkey in Hd.
  - intros key. specialize (Hd key). split.
    + intros Hnone x Hx Hsig. rewrite Hnone in Hd. cbn in Hd.
      assert (x ∈ filter (λ x, declaration_signature x = Ok key) aten_decls)
        as Hin by by apply list_elem_of_filter.
      rewrite <- Hd in Hin. by apply elem_of_nil in Hin.
    + intros Hall. destruct (d !! key) as [bucket|] eqn:Hkey; [|done].
      exfalso. cbn in Hd. destruct bucket as [|x bucket]; [by eapply Hne|].
      assert (x ∈ x :: bucket) as Hin by by left.
      rewrite Hd in Hin. apply list_elem_of_filter in Hin as [? ?].
      by eapply Hall.
Qed.

Lemma grouper_bucket_contents_witness :
  ∃ d, group_declarations_by_signature
         [(enrich add_Tensor).1; (enrich max_dim).1; (enrich add_Tensor).1]
       = Ok d ∧
       d !! "add(Tensor, Tensor, Scalar)"
       = Some [(enrich add_Tensor).1; (enrich add_Tensor).1] ∧
       d !! "sub(Tensor, Tensor, Scalar)" = None.
Proof.
  destruct (group_declarations_by_signature
              [(enrich add_Tensor).1; (enrich max_dim).1; (enrich add_Tensor).1])
    as [d|] eqn:Hgroup; [|by vm_compute in Hgroup].
  destruct (grouper_bucket_contents _ d Hgroup) as [Hsome Hnone].
  exists d. split_and!; [done| |].
  - destruct (d !! "add(Tensor, Tensor, Scalar)") as [bucket|] eqn:Hkey.
    + destruct (Hsome _ _ Hkey) as [_ ->]. reflexivity.
    + exfalso. apply (proj1 (Hnone _) Hkey (enrich add_Tensor).1); [by left|].
      reflexivity.
  - apply Hnone. intros x Hx.
    repeat (apply elem_of_cons in Hx as [->|Hx]; [by vm_compute|]).
    by apply elem_of_nil in Hx.
Defined.

(** ** The simple type of the usual type texts *)

Lemma replace_go_skip (old new t rest : string) :
  Py.replace_go old new (String.length t) (t +:+ rest)
  = Py.replace_go old new 0 rest.
Proof.
  induction t as [|c t IH]; [done|]. rewrite PyFacts.app_cons. apply IH.
Qed.

Lemma replace_match (old new rest : string) :
  old ≠ "" →
  Py.replace old new (old +:+ rest) = new +:+ Py.replace old new rest.
Proof.
  destruct old as [|a old']; [done|]. intros _. unfold Py.replace.
  rewrite PyFacts.app_cons. cbn [Py.replace_go].
  assert (Py.startswith (String a (old' +:+ rest)) (String a old') = true)
    as -> by (apply PyFacts.startswith_true; eauto).
  f_equal.
  assert (String.length (String a old') - 1 = String.length old') as ->
    by (cbn; lia).
  apply replace_go_skip.
Qed.

Lemma replace_nomatch (old new : string) (c : ascii) (s : string) :
  Py.startswith (String c s) old = false →
  Py.replace old new (String c s) = String c (Py.replace old new s).
Proof. intros H. unfold Py.replace. cbn [Py.replace_go]. by rewrite H. Qed.

Lemma occurs_decompose (old s : string) :
  Py.occurs old s = true → ∃ a b, s = a +:+ old +:+ b.
Proof.
  induction s as [|c s IH].
  - cbn. rewrite orb_false_r. intros [r Hr]%PyFacts.startswith_true.
    exists "", r. done.
  - rewrite PyFacts.occurs_cons.
    intros [[r Hr]%PyFacts.startswith_true|Hs]%orb_true_iff.
    + exists "", r. done.
    + destruct (IH Hs) as (a & b & ->). exists (String c a), b. done.
Qed.

(** A text without a space holds no text with a space in it. *)
Lemma no_space_no_pattern (before after s : string) :
  Py.occurs " " s = false → Py.occurs (before +:+ " " +:+ after) s = false.
Proof.
  intros Hs. apply not_true_is_false.
  intros (a & b & ->)%occurs_decompose.
  rewrite !PyFacts.app_assoc, <- (PyFacts.app_assoc a before) in Hs.
  by rewrite SignatureText.occurs_app_sep in Hs.
Qed.

Lemma occurs_char_app (c : ascii) (s t : string) :
  Py.occurs (String c "") (s +:+ t)
  = Py.occurs (String c "") s || Py.occurs (String c "") t.
Proof.
  induction s as [|b s IH].
  - rewrite PyFacts.app_nil_l. cbn. by destruct t.
  - rewrite PyFacts.app_cons, !PyFacts.occurs_cons, IH.
    unfold Py.startswith. cbn. by destruct (decide (c = b)).
Qed.

Lemma occurs_char_cons (c b : ascii) (s : string) :
  Py.occurs (String c "") (String b s) = false →
  c ≠ b ∧ Py.occurs (String c "") s = false.
Proof.
  rewrite PyFacts.occurs_cons. intros [H1 H2]%orb_false_elim.
  split; [|done]. intros ->. unfold Py.startswith in H1. cbn in H1.
  by rewrite decide_True in H1.
Qed.

Lemma no_space_not_rewritten (s : string) :
  Py.occurs " " s = false →
  Py.replace "Generator *" "Generator"
    (Py.replace "const " "" (Py.replace " &" "" s)) = s.
Proof.
  intros Hs.
  rewrite (PyFacts.replace_absent " &") by apply (no_space_no_pattern "" "&" s Hs).
  rewrite (PyFacts.replace_absent "const ")
    by apply (no_space_no_pattern "const" "" s Hs).
  by rewrite (PyFacts.replace_absent "Generator *")
    by apply (no_space_no_pattern "Generator" "*" s Hs).
Qed.

Lemma first_line_no_newline (s : string) :
  Py.occurs (String "010" "") s = false → Py.first_line s = s.
Proof.
  induction s as [|b s IH]; [done|].
  intros [Hb Hs]%occurs_char_cons. cbn.
  rewrite decide_False by done. by rewrite IH.
Qed.

Lemma before_last_gt_snoc (s : string) :
  Py.before_last_gt (s +:+ ">") = Some s.
Proof.
  induction s as [|b s IH]; [done|]. rewrite PyFacts.app_cons. cbn.
  by rewrite IH.
Qed.

(** X18: the simple type of an optional wrapper.  For a wrapped type [T]
    that is not empty and holds neither a space nor a line feed, the simple
    type of "c10::optional<T>" is [T] followed by "?".  [T] is taken as it
    is spelt: it is not normalized in its turn, so a wrapper inside [T]
    stays. *)
Theorem optional_simple_type (T : string) :
  T ≠ "" → Py.occurs " " T = false → Py.occurs (String "010" "") T = false →
  normalize ("c10::optional<" +:+ T +:+ ">") = T +:+ "?".
Proof.
  intros Hne Hspace Hline. unfold normalize, get_simple_type.
  change (getitem_type (mkTypeDict ?t)) with t.
  rewrite no_space_not_rewritten; cycle 1.
  { change ("c10::optional<" +:+ T +:+ ">")
      with (String "c" (String "1" (String "0" (String ":" (String ":"
           (String "o" (String "p" (String "t" (String "i" (String "o"
           (String "n" (String "a" (String "l" (String "<"
              (T +:+ ">"))))))))))))))).
    rewrite !PyFacts.occurs_cons. cbn -[Py.occurs].
    change (Py.occurs " " (T +:+ ">") = false).
    by rewrite (occurs_char_app " " T ">"), Hspace. }
  unfold Py.match_optional.
  assert (Py.strip_prefix "c10::optional<" ("c10::optional<" +:+ T +:+ ">")
          = Some (T +:+ ">")) as -> by by apply PyFacts.strip_prefix_Some.
  rewrite first_line_no_newline
    by (by rewrite (occurs_char_app "010" T ">"), Hline).
  rewrite before_last_gt_snoc. by destruct T.
Qed.

Lemma optional_simple_type_witness :
  normalize "c10::optional<c10::optional<Tensor>>" = "c10::optional<Tensor>?".
Proof.
  apply (optional_simple_type "c10::optional<Tensor>"); [discriminate|done..].
Defined.

Lemma replace_ref_snoc (T : string) :
  Py.occurs " " T = false → Py.replace " &" "" (T +:+ " &") = T.
Proof.
  induction T as [|b T IH]; [done|].
  intros [Hb HT]%occurs_char_cons. rewrite PyFacts.app_cons.
  rewrite replace_nomatch; [by rewrite IH|].
  unfold Py.startswith. cbn. by rewrite decide_False.
Qed.

Lemma startswith_space_amp (T rest : string) :
  Py.occurs "&" T = false →
  Py.startswith (String " " (T +:+ String " " rest)) " &" = false.
Proof.
  intros HT. unfold Py.startswith. cbn.
  destruct T as [|b T]; [done|]. rewrite PyFacts.app_cons.
  apply occurs_char_cons in HT as [Hb _]. by repeat case_decide.
Qed.

Lemma replace_ref_const (T rest : string) :
  Py.occurs "&" T = false →
  Py.replace " &" "" ("const " +:+ T +:+ String " " rest)
  = "const " +:+ Py.replace " &" "" (T +:+ String " " rest).
Proof.
  intros HT.
  change ("const " +:+ T +:+ String " " rest)
    with (String "c" (String "o" (String "n" (String "s" (String "t"
            (String " " (T +:+ String " " rest))))))).
  do 5 (rewrite replace_nomatch by reflexivity).
  by rewrite replace_nomatch by by apply startswith_space_amp.
Qed.

(** X19: reference and const qualifiers do not show in the simple type.
    For a type text [T] that holds neither a space nor "&", the texts
    "const T &", "T &" and "const T" all have the simple type of [T]
    itself. *)
Theorem qualifiers_stripped (T : string) :
  Py.occurs " " T = false → Py.occurs "&" T = false →
  normalize ("const " +:+ T +:+ " &") = normalize T ∧
  normalize (T +:+ " &") = normalize T ∧
  normalize ("const " +:+ T) = normalize T.
Proof.
  intros Hspace Hamp.
  assert (Py.replace "const " "" ("const " +:+ T) = T) as Hconst.
  { rewrite (replace_match "const " "" T) by done.
    by rewrite (PyFacts.replace_absent "const ")
      by apply (no_space_no_pattern "const" "" T Hspace). }
  assert (normalize T
          = match Py.match_optional T with
            | Some group1 => group1 +:+ "?"
            | None => T
            end) as HT.
  { unfold normalize, get_simple_type.
    change (getitem_type (mkTypeDict ?t)) with t.
    by rewrite no_space_not_rewritten. }
  assert (Py.replace "Generator *" "Generator" T = T) as Hgen.
  { by rewrite (PyFacts.replace_absent "Generator *")
      by apply (no_space_no_pattern "Generator" "*" T Hspace). }
  rewrite HT. unfold normalize, get_simple_type.
  change (getitem_type (mkTypeDict ?t)) with t.
  split_and!.
  - rewrite (replace_ref_const T "&") by done.
    by rewrite replace_ref_snoc, Hconst, Hgen.
  - by rewrite replace_ref_snoc, (PyFacts.replace_absent "const "), Hgen
      by (done || apply (no_space_no_pattern "const" "" T Hspace)).
  - assert (Py.replace " &" "" ("const " +:+ T) = "const " +:+ T) as ->.
    { change ("const " +:+ T)
        with (String "c" (String "o" (String "n" (String "s" (String "t"
                (String " " T)))))).
      do 5 (rewrite replace_nomatch by reflexivity).
      rewrite replace_nomatch.
      - by rewrite (PyFacts.replace_absent " &")
          by apply (no_space_no_pattern "" "&" T Hspace).
      - unfold Py.startswith. cbn. destruct T as [|b T]; [done|].
        apply occurs_char_cons in Hamp as [Hb _]. by repeat case_decide. }
    by rewrite Hconst, Hgen.
Qed.

Lemma qualifiers_stripped_witness :
  normalize "const c10::optional<Tensor> &" = "Tensor?" ∧
  normalize "Tensor &" = "Tensor" ∧
  normalize "const Scalar" = "Scalar".
Proof.
  destruct (qualifiers_stripped "c10::optional<Tensor>" eq_refl eq_refl)
    as (H1 & _ & _).
  destruct (qualifiers_stripped "Tensor" eq_refl eq_refl) as (_ & H2 & _).
  destruct (qualifiers_stripped "Scalar" eq_refl eq_refl) as (_ & _ & H3).
  split_and!.
  - change (normalize ("const " +:+ "c10::optional<Tensor>" +:+ " &")
            = "Tensor?").
    rewrite H1. reflexivity.
  - change (normalize ("Tensor" +:+ " &") = "Tensor").
    rewrite H2. reflexivity.
  - change (normalize ("const " +:+ "Scalar") = "Scalar").
    rewrite H3. reflexivity.
Defined.

(** ** The view tables *)

Lemma add_self_views_lookup (keys : list string) (table : gmap string string)
    (key : string) :
  add_self_views keys table !! key
  = if decide (key ∈ keys) then Some "self" else table !! key.
Proof.
  unfold add_self_views. revert table.
  induction keys as [|k keys IH]; intros table; [done|].
  cbn [foldl]. rewrite IH.
  destruct (decide (key ∈ keys)) as [Hin|Hin].
  - rewrite decide_True; [done|by right].
  - destruct (decide (k = key)) as [->|Hne].
    + rewrite lookup_insert_eq. rewrite decide_True; [done|by left].
    + rewrite lookup_insert_ne by done. rewrite decide_False; [done|].
      by intros [->|?]%elem_of_cons.
Qed.

(** X20: the loop that completes [VIEW_FUNCTIONS] makes every function of
    [VIEW_FUNCTIONS_WITH_METADATA_CHANGE] a view of ['self'] and leaves the
    other entries of the table as written, whatever the table holds; and
    [RETURNS_VIEWS_OF_INPUT] contains every key of the table it is built
    from.  For the tables of the module: the functions of
    [MULTI_OUTPUT_SAFE_FUNCTIONS] are view functions, and every view
    function is in [RETURNS_VIEWS_OF_INPUT]. *)
Theorem view_tables :
  (∀ keys table key,
     (key ∈ keys → add_self_views keys table !! key = Some "self") ∧
     (key ∉ keys → add_self_views keys table !! key = table !! key)) ∧
  (∀ table others key, is_Some (table !! key) → key ∈ returns_views table others) ∧
  (∀ key, key ∈ VIEW_FUNCTIONS_WITH_METADATA_CHANGE →
          VIEW_FUNCTIONS !! key = Some "self") ∧
  (∀ key, key ∈ MULTI_OUTPUT_SAFE_FUNCTIONS → is_Some (VIEW_FUNCTIONS !! key)) ∧
  (∀ key, is_Some (VIEW_FUNCTIONS !! key) → key ∈ RETURNS_VIEWS_OF_INPUT).
Proof.
  assert (∀ table others key,
            is_Some (table !! key) → key ∈ returns_views table others) as Hret.
  { intros table others key Hkey. unfold returns_views.
    apply elem_of_union. left. by apply elem_of_dom. }
  split_and!.
  - intros keys table key. rewrite add_self_views_lookup.
    split; intros ?; [by rewrite decide_True|by rewrite decide_False].
  - done.
  - intros key Hkey. unfold VIEW_FUNCTIONS.
    rewrite add_self_views_lookup. by rewrite decide_True.
  - intros key Hkey. unfold MULTI_OUTPUT_SAFE_FUNCTIONS in Hkey.
    apply elem_of_union in Hkey as [Hkey|Hkey];
      apply elem_of_singleton in Hkey as ->; by eexists.
  - intros key. apply Hret.
Qed.

Lemma view_tables_witness :
  VIEW_FUNCTIONS !! "view_as_real" = Some "self" ∧
  VIEW_FUNCTIONS !! "sparse_coo_tensor_with_dims_and_tensors" = Some "values" ∧
  "split" ∈ RETURNS_VIEWS_OF_INPUT.
Proof.
  destruct view_tables as (Hloop & _ & Hmeta & Hmulti & Hret).
  split_and!.
  - apply Hmeta. by left.
  - destruct (Hloop VIEW_FUNCTIONS_WITH_METADATA_CHANGE VIEW_FUNCTIONS_literal
                "sparse_coo_tensor_with_dims_and_tensors") as [_ Hother].
    unfold VIEW_FUNCTIONS. rewrite Hother; [reflexivity|].
    intros Hin. repeat (apply elem_of_cons in Hin as [[=]|Hin]).
    by apply elem_of_nil in Hin.
  - apply Hret, Hmulti. unfold MULTI_OUTPUT_SAFE_FUNCTIONS.
    apply elem_of_union. left. by apply elem_of_singleton.
Defined.

(** ** The wrapper name *)

(** X21: ['type_wrapper_name'] is the name when the overload name is absent
    or empty, and the name, an underscore and the overload name otherwise.
    It does not tell the two cases apart: a declaration named [n_o] without
    overload name and a declaration named [n] with the overload name [o] get
    the same wrapper name. *)
Theorem type_wrapper_name_collides (d1 d2 : Declaration) (o : string) :
  o ≠ "" →
  decl_overload_name d1 = Some o →
  truthy_str (decl_overload_name d2) = false →
  decl_name d2 = decl_name d1 +:+ "_" +:+ o →
  decl_type_wrapper_name (enrich d1).1 = Some (decl_name d1 +:+ "_" +:+ o) ∧
  decl_type_wrapper_name (enrich d2).1 = Some (decl_name d2) ∧
  decl_type_wrapper_name (enrich d1).1 = decl_type_wrapper_name (enrich d2).1.
Proof.
  intros Ho H1 H2 Hname.
  assert (decl_type_wrapper_name (enrich d1).1
          = Some (decl_name d1 +:+ "_" +:+ o)) as Hw1.
  { unfold enrich. rewrite H1.
    destruct (getindex _ 1); cbn; by destruct o. }
  assert (decl_type_wrapper_name (enrich d2).1 = Some (decl_name d2)) as Hw2.
  { unfold enrich. rewrite H2. by destruct (getindex _ 1). }
  split_and!; [done..|]. by rewrite Hw1, Hw2, Hname.
Qed.

Lemma type_wrapper_name_collides_witness :
  decl_type_wrapper_name (enrich add_Tensor).1 = Some "add_Tensor" ∧
  decl_type_wrapper_name
    (enrich (mkDeclaration "add_Tensor" None false [] [] []
               "aten::add_Tensor() -> ()"
               None None None None None None None None None None None None)).1
  = Some "add_Tensor".
Proof.
  destruct (type_wrapper_name_collides add_Tensor
              (mkDeclaration "add_Tensor" None false [] [] []
                 "aten::add_Tensor() -> ()"
                 None None None None None None None None None None None None)
              "Tensor") as (H1 & H2 & _); [discriminate|reflexivity..|].
  split; [exact H1|exact H2].
Defined.

(** ** Every match is resolved *)

Section every_match.

Variable split_name_params : string → Result (string * list string).

(** X22: a deprecated entry is resolved against every canonical declaration
    with its signature, not only the first: when the run returns, the
    declarations it returns for one entry stand one to one, in the order of
    the canonical list, for the canonical declarations whose key is the
    entry's signature. *)
Theorem every_match_resolved (aten_decls : list Declaration)
    (deprecated : DeprecatedDef) (out : list Declaration)
    (aten_name name signature : string) (call_args params : list string) :
  split_name_params (dep_aten deprecated) = Ok (aten_name, call_args) →
  split_name_params (dep_name deprecated) = Ok (name, params) →
  get_signature aten_name params call_args = Ok signature →
  load_deprecated_signatures split_name_params aten_decls [deprecated]
  = Ok out →
  Forall2 (λ canonical resolved,
             deprecated_declaration params call_args canonical = Ok resolved)
          (filter (λ x, declaration_signature x = Ok signature) aten_decls)
          out.
Proof.
  intros Haten Hname Hsig. unfold load_deprecated_signatures.
  intros (d & Hgroup & Hloop)%bind_Ok_inv.
  apply group_declarations_by_signature_lookup in Hgroup as [_ Hd].
  cbn [resolve_loop] in Hloop. unfold resolve_deprecated in Hloop.
  rewrite Haten in Hloop. cbn in Hloop. rewrite Hname in Hloop. cbn in Hloop.
  rewrite Hsig in Hloop. cbn in Hloop.
  pose proof (defaultdict_getitem_fst d signature) as Hfst.
  destruct (defaultdict_getitem d signature) as [bucket d1]. cbn in Hfst.
  rewrite Hd in Hfst. subst bucket.
  destruct (mapM _ _) as [res|] eqn:Hres; [|done]. cbn in Hloop.
  injection Hloop as <-. rewrite app_nil_r. by apply mapM_Ok.
Qed.

End every_match.

Lemma every_match_resolved_witness :
  ∃ out, load_deprecated_signatures split_name_params
           [(enrich add_Tensor).1; (enrich max_dim).1; (enrich add_Tensor).1]
           [deprecated_add] = Ok out ∧
         length out = 2.
Proof.
  destruct (load_deprecated_signatures split_name_params
              [(enrich add_Tensor).1; (enrich max_dim).1; (enrich add_Tensor).1]
              [deprecated_add]) as [out|] eqn:Hrun; [|by vm_compute in Hrun].
  exists out. split; [done|].
  pose proof (every_match_resolved split_name_params _ deprecated_add out
                "add" "add" "add(Tensor, Tensor, Scalar)"
                ["self"; "other"; "alpha"]
                ["Tensor self"; "Scalar alpha"; "Tensor other"]
                eq_refl eq_refl eq_refl Hrun) as Hall.
  by rewrite <- (Forall2_length _ _ _ Hall).
Defined.
